(** * nomad-plugin-tests: the test-orchestration pipeline of [cli.py]

    A shallow embedding of [src/nomad_plugin_tests/cli.py] and of the
    parts of [parsing.py] that work on data in memory (the plugin lines of
    [pyproject.toml] and the descriptors built from the entry points), with
    the properties the specification states about them and further
    properties of the code.

    Part I holds the definitions: the Python primitives the code relies on,
    the data model, the pure functions, a state-and-exception monad for the
    effectful ones, the pipeline itself, and the vocabulary of the
    statements. Part II holds the lemmas and the theorems. *)

From Stdlib Require Import ZArith Lia Bool Ascii.
From Stdlib Require String.
From stdpp Require Import base list strings gmap.

Local Open Scope Z_scope.

(** * Part I: definitions *)

(** ** Python values and exceptions *)

Module Py.

(** The exceptions that can cross a function boundary in [cli.py].
    [Unexpected] stands for whatever an external collaborator raises. *)
Inductive Exc : Type :=
| ZeroDivisionError
| IndexError
| SystemExit (code : Z)
| Unexpected (what : string).

Inductive Result (A : Type) : Type :=
| Val (a : A)
| Exn (e : Exc).
Arguments Val {A} a.
Arguments Exn {A} e.

Definition is_exn {A} (r : Result A) : bool :=
  match r with Val _ => false | Exn _ => true end.

(** Truth value of a [str | None]: [None] and [""] are falsy. *)
Definition truthy (o : option string) : bool :=
  match o with
  | None => false
  | Some EmptyString => false
  | Some (String _ _) => true
  end.

(** Truth value of what [clone_and_test_package] returns
    ([None], [True] or [False]). *)
Definition truthy_result (o : option bool) : bool :=
  match o with Some true => true | _ => false end.

(** [sub in s] on strings: [sub] occurs at some offset of [s]. *)
Fixpoint str_in (sub s : string) : bool :=
  String.prefix sub s ||
  match s with
  | EmptyString => false
  | String _ s' => str_in sub s'
  end.

(** [s.endswith(suffix)]. *)
Fixpoint endswith (s suffix : string) : bool :=
  String.eqb s suffix ||
  match s with
  | EmptyString => false
  | String _ s' => endswith s' suffix
  end.

(** [a // b] on integers: floor division, raising on a zero divisor.
    [Z.div] rounds towards minus infinity, as Python does. *)
Definition floordiv (a b : Z) : Result Z :=
  if b =? 0 then Exn ZeroDivisionError else Val (a / b).

(** A slice bound brought into [0 .. len], as [list.__getitem__] does for
    a slice with step 1: a negative bound counts from the end. *)
Definition clamp (len i : Z) : Z :=
  if i <? 0 then Z.max 0 (i + len) else Z.min i len.

(** [l[lo:hi]]; [hi = None] is [l[lo:]]. *)
Definition slice {A} (l : list A) (lo : Z) (hi : option Z) : list A :=
  let n := Z.of_nat (length l) in
  let lo' := clamp n lo in
  let hi' := match hi with None => n | Some h => clamp n h end in
  take (Z.to_nat (hi' - lo')) (drop (Z.to_nat lo') l).

(** [", ".join(l)]. *)
Fixpoint join (sep : string) (l : list string) : string :=
  match l with
  | [] => ""
  | [x] => x
  | x :: rest => x +:+ sep +:+ join sep rest
  end.

End Py.
Import Py.

(** ** Data model ([parsing.py], [PluginPackage]) *)

Record PluginPackage : Type := mkPluginPackage {
  name : string;
  description : option string;
  version : option string;
  homepage : option string;
  documentation : option string;
  repository : option string;
  github_url : option string;
  commit_hash : option string;
  entry_points : list string
}.

(** [LockGitInfo]: the pinned commit and URL of a git dependency. *)
Record LockGitInfo : Type := mkLockGitInfo {
  commit : string;
  url : string
}.

(** ** Pure functions of [cli.py] *)

Definition is_valid_github_url (url : option string) : bool :=
  match url with
  | None => false
  | Some u => str_in "github.com" u
  end.

(** Lines 45-46: the [.git] suffix is added unless it is there. *)
Definition with_git_suffix (g : string) : string :=
  if negb (endswith g ".git") then g +:+ ".git" else g.

Definition get_git_url (package : PluginPackage) : option string :=
  let github_url_0 : option string := None in
  (* Prioritize github_url (most direct indicator) *)
  let github_url_1 :=
    match github_url package with
    | Some (String _ _ as g) =>
        let g := with_git_suffix g in
        if negb (is_valid_github_url (Some g)) then None else Some g
    | _ => github_url_0
    end in
  (* Then repository *)
  let github_url_2 :=
    if bool_decide (github_url_1 = None)
       && truthy (repository package)
       && is_valid_github_url (repository package)
    then repository package else github_url_1 in
  (* Finally homepage *)
  let github_url_3 :=
    if bool_decide (github_url_2 = None)
       && truthy (homepage package)
       && is_valid_github_url (homepage package)
    then homepage package else github_url_2 in
  github_url_3.

(** [get_plugin_packages], the lines that complete a freshly built
    descriptor: a lock entry gives URL and commit as they are, otherwise
    the URL is resolved from the descriptor's own candidates. *)
Definition attach_git_info (git_info : option LockGitInfo)
    (p : PluginPackage) : PluginPackage :=
  match git_info with
  | Some gi =>
      mkPluginPackage (name p) (description p) (version p) (homepage p)
        (documentation p) (repository p) (Some (url gi)) (Some (commit gi))
        (entry_points p)
  | None =>
      mkPluginPackage (name p) (description p) (version p) (homepage p)
        (documentation p) (repository p) (get_git_url p) None
        (entry_points p)
  end.

Definition split_packages {A} (packages_to_test : list A)
    (ci_node_total ci_node_index : Z) : Result (list A) :=
  match floordiv (Z.of_nat (length packages_to_test) + ci_node_total - 1)
                 ci_node_total with
  | Exn e => Exn e
  | Val packages_per_node =>
      let start_index := (ci_node_index - 1) * packages_per_node in
      if ci_node_index =? ci_node_total then
        Val (slice packages_to_test start_index None)
      else
        let end_index := start_index + packages_per_node in
        Val (slice packages_to_test start_index (Some end_index))
  end.

(** ** More Python primitives: paths, [split] and [strip] *)

Module PyStr.

Definition nl : string := String (ascii_of_nat 10) "".

(** [str(x)] for a [str | None] inside an f-string. *)
Definition fmt (o : option string) : string :=
  match o with Some s => s | None => "None" end.

Definition startswith_sep (s : string) : bool :=
  match s with String "/" _ => true | _ => false end.

(** [os.path.join(a, b)] on a POSIX host. *)
Definition path_join (a b : string) : string :=
  if startswith_sep b then b
  else if String.eqb a "" || endswith a "/" then a +:+ b
  else a +:+ "/" +:+ b.

(** [s.split(sep)] for a one-character separator. *)
Fixpoint split (sep : ascii) (s : string) : list string :=
  match s with
  | EmptyString => [""]
  | String c s' =>
      match split sep s' with
      | [] => [""]
      | h :: t => if Ascii.eqb c sep then "" :: h :: t else String c h :: t
      end
  end.

(** Whitespace as [str.strip()] sees it, on the ASCII range. *)
Definition is_space (c : ascii) : bool :=
  let n := nat_of_ascii c in
  ((9 <=? n) && (n <=? 13) || (28 <=? n) && (n <=? 32))%nat.

Fixpoint lstrip (s : string) : string :=
  match s with
  | EmptyString => ""
  | String c s' => if is_space c then lstrip s' else s
  end.

Fixpoint rstrip (s : string) : string :=
  match s with
  | EmptyString => ""
  | String c s' =>
      match rstrip s' with
      | EmptyString => if is_space c then "" else String c ""
      | r => String c r
      end
  end.

Definition strip (s : string) : string := rstrip (lstrip s).

End PyStr.
Import PyStr.

(** ** The world outside the pipeline *)

Inductive Level : Type := DEBUG | INFO | WARNING | ERROR.

Definition levelno (l : Level) : Z :=
  match l with DEBUG => 10 | INFO => 20 | WARNING => 30 | ERROR => 40 end.

(** The [cwd] argument of [run_command]: some calls leave it out, the
    clone passes [None], the others pass a directory. *)
Inductive CwdArg : Type :=
| CwdDefault
| CwdNone
| Cwd (dir : string).

(** What a call of the command runner does: return its verdict, or fail
    with an error nobody planned for. *)
Inductive Outcome : Type :=
| Returns (ok : bool)
| Raises (what : string).

Inductive FileRead : Type :=
| FileContents (s : string)
| FileNotFound
| FileError (msg : string).

(** Everything observable a run does, in program order. *)
Inductive Event : Type :=
| Makedirs (path : string)
| RootHandlersCleared
| FileHandlerOpened (path : string)
| HandlerAdded (logger path : string)
| HandlerRemoved (logger path : string)
| FileHandlerClosed (path : string)
| Logged (logger : string) (lvl : Level) (msg : string)
| Ran (argv : list (option string)) (cwd : CwdArg) (out : Outcome)
| TempDirCreated (dir : string)
| TempDirRemoved (dir : string)
| PoolMapped (names : list string)
| Printed (msg : string).

Definition Trace : Type := list Event.

(** The collaborators of [cli.py], taken as parameters: [process.py]
    ([run_command]) and [config.py] ([TESTS_TO_RUN]) are not among the
    sources, the rest is the host (temporary directories, working
    directory, [repr], log files) and the schedule of the worker pool.
    An external command answers as a function of what its task did so
    far; nothing is assumed about the answers. *)
Record Env : Type := mkEnv {
  run_command_oracle : Trace -> list (option string) -> CwdArg -> Outcome;
  TESTS_TO_RUN : string -> option string;
  mkdtemp : Trace -> string;
  getcwd : string;
  repr_package : PluginPackage -> string;
  read_file : Trace -> string -> FileRead;
  (** the order in which the pool's workers finish: at each completion,
      which of the still pending tasks it is *)
  completion_picks : list nat
}.

(** ** State and exceptions *)

Definition M (A : Type) : Type := Trace -> Result A * Trace.

Definition ret {A} (a : A) : M A := fun t => (Val a, t).

Definition bind {A B} (m : M A) (k : A -> M B) : M B :=
  fun t =>
    match m t with
    | (Val a, t') => k a t'
    | (Exn e, t') => (Exn e, t')
    end.

Definition raise {A} (e : Exc) : M A := fun t => (Exn e, t).

Definition emit (ev : Event) : M unit := fun t => (Val tt, t ++ [ev]).

(** [try: body finally: fin]: [fin] runs on every exit of [body]. *)
Definition try_finally {A} (body : M A) (fin : M unit) : M A :=
  fun t =>
    match body t with
    | (r, t') =>
        match fin t' with
        | (Val _, t'') => (r, t'')
        | (Exn e, t'') => (Exn e, t'')
        end
    end.

Declare Scope m_scope.
Delimit Scope m_scope with M.
Notation "x <- c1 ;; c2" := (bind c1 (fun x => c2))
  (at level 100, c1 at next level, right associativity) : m_scope.
Notation "c1 ;; c2" := (bind c1 (fun _ => c2))
  (at level 100, right associativity) : m_scope.
Local Open Scope m_scope.

Definition strs (l : list string) : list (option string) := map Some l.

(** ** The pipeline of [cli.py] *)

Section Pipeline.

Variable env : Env.

(** [run_command(argv, cwd=..., package_logger=...)] of [process.py]: the
    call and its outcome are recorded; a raised error propagates. *)
Definition run_command (argv : list (option string)) (cwd : CwdArg)
  : M bool :=
  fun t =>
    let out := run_command_oracle env t argv cwd in
    match out with
    | Returns ok => (Val ok, t ++ [Ran argv cwd out])
    | Raises what => (Exn (Unexpected what), t ++ [Ran argv cwd out])
    end.

(** A call on the package logger, whose level is [INFO]. *)
Definition log (logger : string) (lvl : Level) (msg : string) : M unit :=
  if levelno INFO <=? levelno lvl then emit (Logged logger lvl msg)
  else ret tt.

Definition tag_checkout_command (tag_name : string)
  : list (option string) :=
  strs ["git"; "checkout"; tag_name; "-b"; tag_name +:+ "-branch"].

Definition checkout_tag (repo_path tag_name : string)
    (package_logger : string) : M bool :=
  let checkout_command := tag_checkout_command tag_name in
  ok <- run_command checkout_command (Cwd repo_path) ;;
  if ok then
    log package_logger DEBUG
      ("Successfully fetched tag '" +:+ tag_name +:+ "'.") ;;
    ret true
  else
    log package_logger ERROR
      ("Failed to fetch tag '" +:+ tag_name +:+ "'.") ;;
    ret false.

Definition commit_fetch_command (package : PluginPackage)
  : list (option string) :=
  strs ["git"; "fetch"; "origin"] ++ [commit_hash package].

Definition commit_checkout_command (package : PluginPackage)
  : list (option string) :=
  strs ["git"; "checkout"] ++ [commit_hash package].

Definition fetch_tags_command : list (option string) :=
  strs ["git"; "fetch"; "origin"; "--tags"].

(** [clone_and_checkout], step 2, first half (lines 105-121): the pinned
    commit. Gives the value of [checkout_successful]. *)
Definition checkout_commit (package : PluginPackage) (temp_dir : string)
    (package_logger : string) : M bool :=
  let checkout_successful := false in
  if truthy (commit_hash package) then
    let fetch_command := commit_fetch_command package in
    let checkout_command := commit_checkout_command package in
    fetched <- run_command fetch_command (Cwd temp_dir) ;;
    done <- (if fetched then run_command checkout_command (Cwd temp_dir)
             else ret false) ;;
    if done then
      log package_logger INFO
        ("Checked out commit '" +:+ fmt (commit_hash package)
         +:+ "' successfully for '" +:+ name package +:+ "'.") ;;
      ret true
    else
      log package_logger ERROR
        ("Failed to check out commit '" +:+ fmt (commit_hash package)
         +:+ "' for '" +:+ name package +:+ "'.") ;;
      ret checkout_successful
  else ret checkout_successful.

(** [version_tag] of lines 126-130. *)
Definition version_tag_of (package : PluginPackage) : option string :=
  match version package with
  | Some v => if negb (str_in ".dev" v) then Some v else None
  | None => None
  end.

(** [clone_and_checkout], step 2, second half (lines 123-156): the tag
    fallback, entered with the current [checkout_successful]. *)
Definition checkout_version (package : PluginPackage) (temp_dir : string)
    (package_logger : string) (checkout_successful : bool) : M bool :=
  if negb (truthy (commit_hash package)) || negb checkout_successful then
    let version_tag := version_tag_of package in
    if truthy version_tag then
      (* Try with "v" prefix first *)
      let tag_name_v := "v" +:+ fmt version_tag in
      let tag_name_no_v := fmt version_tag in
      let fetch_command := fetch_tags_command in
      fetched <- run_command fetch_command (Cwd temp_dir) ;;
      if fetched then
        with_v <- (if negb (String.eqb tag_name_v "v0.0.0")
                   then checkout_tag temp_dir tag_name_v package_logger
                   else ret false) ;;
        if with_v then ret true
        else
          without_v <- (if negb (String.eqb tag_name_no_v "0.0.0")
                        then checkout_tag temp_dir tag_name_no_v
                               package_logger
                        else ret false) ;;
          if without_v then ret true else ret checkout_successful
      else ret checkout_successful
    else if truthy (version package)
            && str_in ".dev" (fmt (version package)) then
      log package_logger WARNING
        ("Skipping checkout for dev version '" +:+ fmt (version package)
         +:+ "' for '" +:+ name package +:+ "'.") ;;
      ret true
    else
      log package_logger WARNING
        ("No commit_hash or valid tag found for '" +:+ name package
         +:+ "'. Skipping checkout.") ;;
      ret true
  else ret checkout_successful.

Definition clone_command (package : PluginPackage) (temp_dir : string)
  : list (option string) :=
  strs ["git"; "clone"; "--depth"; "1"] ++ [github_url package]
    ++ strs [temp_dir].

(** [clone_and_checkout], step 2 as a whole (lines 104-157). *)
Definition checkout_stage (package : PluginPackage) (temp_dir : string)
    (package_logger : string) : M bool :=
  checkout_successful <- checkout_commit package temp_dir package_logger ;;
  checkout_version package temp_dir package_logger checkout_successful.

Definition clone_and_checkout (package : PluginPackage)
    (temp_dir : string) (package_logger : string) : M bool :=
  (* 1. Clone the repository *)
  cloned <- run_command (clone_command package temp_dir) CwdNone ;;
  if negb cloned then
    log package_logger ERROR
      ("Failed to clone repository for '" +:+ name package +:+ "'.") ;;
    ret false
  else
    (* 2. Checkout commit hash or tag *)
    checkout_stage package temp_dir package_logger.

(** [with tempfile.TemporaryDirectory() as temp_dir: body]. *)
Definition with_TemporaryDirectory {A} (body : string -> M A) : M A :=
  fun t =>
    let temp_dir := mkdtemp env t in
    (emit (TempDirCreated temp_dir) ;;
     try_finally (body temp_dir) (emit (TempDirRemoved temp_dir))) t.

(** The stages after checkout (lines 194-278). *)
Definition install_and_test (package : PluginPackage) (temp_dir : string)
    (package_logger : string) : M (option bool) :=
  log package_logger INFO
    ("Installing dev dependencies for '" +:+ name package +:+ "'...") ;;
  let venv := path_join temp_dir "venv" in
  let venv_command := strs ["uv"; "venv"; "-p"; "3.12"; "--seed"; venv] in
  venv_ok <- run_command venv_command CwdDefault ;;
  if negb venv_ok then
    log package_logger ERROR
      ("Failed to create venv for '" +:+ name package +:+ "'") ;;
    ret None
  else
  log package_logger INFO
    ("Successfully created venv for '" +:+ name package +:+ "'.") ;;
  let python_path := path_join (path_join venv "bin") "python" in
  let requirements_file := path_join (getcwd env) "requirements.txt" in
  let install_command :=
    strs ["uv"; "pip"; "install"; "-r"; requirements_file; "--reinstall";
          "--quiet"; "-p"; python_path] in
  distro_ok <- run_command install_command (Cwd (getcwd env)) ;;
  if negb distro_ok then
    log package_logger ERROR
      ("Failed to install distro dependencies for '" +:+ name package
       +:+ "'") ;;
    ret None
  else
  log package_logger INFO
    ("Successfully installed distro dependencies for '" +:+ name package
     +:+ "'.") ;;
  let install_command :=
    strs ["uv"; "pip"; "install"; "-r"; temp_dir +:+ "/pyproject.toml";
          "--all-extras"; "-p"; python_path; "-c"; requirements_file] in
  dev_ok <- run_command install_command (Cwd temp_dir) ;;
  if negb dev_ok then
    log package_logger ERROR
      ("Failed to install dev dependencies for '" +:+ name package
       +:+ "'") ;;
    ret None
  else
  log package_logger INFO
    ("Successfully installed dev dependencies for '" +:+ name package
     +:+ "'.") ;;
  log package_logger INFO
    ("Running pytest for '" +:+ name package +:+ "'") ;;
  let pytest_command :=
    strs [python_path; "-m"; "pytest"; "-p"; "no:warnings"] in
  let pytest_command :=
    if truthy (TESTS_TO_RUN env (name package))
    then pytest_command
           ++ strs [path_join temp_dir
                      (fmt (TESTS_TO_RUN env (name package)))]
    else pytest_command ++ strs [temp_dir] in
  tests_ok <- run_command pytest_command (Cwd temp_dir) ;;
  if negb tests_ok then
    log package_logger ERROR
      ("Tests failed for '" +:+ name package +:+ "'") ;;
    ret (Some false)
  else
    log package_logger INFO
      ("Tests passed for '" +:+ name package +:+ "'.") ;;
    ret (Some true).

(** The [try] block of [clone_and_test_package] (lines 183-278). *)
Definition package_pipeline (package : PluginPackage)
    (package_logger : string) : M (option bool) :=
  log package_logger INFO ("Package info: " +:+ repr_package env package) ;;
  match github_url package with
  | None =>
      log package_logger WARNING
        ("No GitHub URL provided for package '" +:+ name package
         +:+ "', skipping.") ;;
      ret None
  | Some _ =>
      with_TemporaryDirectory (fun temp_dir =>
        checked_out <- clone_and_checkout package temp_dir package_logger ;;
        if negb checked_out then ret None
        else install_and_test package temp_dir package_logger)
  end.

(** The [finally] block (lines 280-281). *)
Definition release_log (package_logger log_file_path : string) : M unit :=
  emit (HandlerRemoved package_logger log_file_path) ;;
  emit (FileHandlerClosed log_file_path).

Definition log_dir_of (package : PluginPackage) : string :=
  "logs/" +:+ name package.

Definition log_file_path_of (package : PluginPackage) : string :=
  path_join (log_dir_of package) "test_output.log".

Definition clone_and_test_package (package : PluginPackage)
  : M (option bool) :=
  let package_name := name package in
  let log_dir := log_dir_of package in
  emit (Makedirs log_dir) ;;
  let log_file_path := log_file_path_of package in
  (* Logger redirection *)
  let package_logger := package_name in
  emit RootHandlersCleared ;;
  emit (FileHandlerOpened log_file_path) ;;
  emit (HandlerAdded package_logger log_file_path) ;;
  try_finally (package_pipeline package package_logger)
              (release_log package_logger log_file_path).

(** One task of the pool: the package's pipeline in a worker process,
    whose own trace starts empty. *)
Definition worker (package : PluginPackage) : Result (option bool) :=
  (clone_and_test_package package []).1.


End Pipeline.

(** ** The worker pool

    [multiprocessing.Pool.map(f, xs)] hands out the tasks and blocks until
    all of them have completed, in whatever order. Each completed task puts
    its value into the slot of its own index; the first task seen to raise
    decides the error that [map] re-raises once all are done. *)

(** The completions, one per unit of fuel. The task that finishes next is
    the one at position [pick mod (number pending)] among the pending
    ones, [pick] being the head of [picks] (0 when [picks] has run out):
    every list of picks is a completion order, and every completion order
    has its list of picks. A task that returned fills its slot; the first
    one that raised is remembered in [failure]. *)
Fixpoint pool_collect {B} (fuel : nat) (picks : list nat)
    (pending : list (nat * Result B)) (slots : list (option B))
    (failure : option Exc) : list (option B) * option Exc :=
  match fuel with
  | O => (slots, failure)
  | S fuel' =>
      let k := (hd O picks `mod` length pending)%nat in
      match pending !! k with
      | None => (slots, failure)
      | Some (i, Val b) =>
          pool_collect fuel' (tl picks) (delete k pending)
            (<[i := Some b]> slots) failure
      | Some (i, Exn e) =>
          pool_collect fuel' (tl picks) (delete k pending) slots
            (Some (default e failure))
      end
  end.

(** [pool.map(f, xs)] under the completion order [picks]: fuel for every
    task, so that all complete. Without a failure every slot is filled
    (Lemma [pool_map_spec]) and [omap id] leaves nothing out. *)
Definition pool_map {A B} (picks : list nat) (f : A -> Result B)
    (xs : list A) : Result (list B) :=
  let pending := imap (fun i x => (i, f x)) xs in
  match pool_collect (length xs) picks pending
          (replicate (length xs) None) None with
  | (_, Some e) => Exn e
  | (slots, None) => Val (omap id slots)
  end.

Section Dispatch.

Variable env : Env.

Definition lift {A} (r : Result A) : M A := fun t => (r, t).

(** The loop of [run_tests_parallel] (lines 316-321), from index [i] on:
    [results[i]] decides the list [packages[i]] goes to. *)
Fixpoint classify (i : nat) (packages : list PluginPackage)
    (results : list (option bool)) (passed_packages failed_packages
      : list string) : Result (list string * list string) :=
  match packages with
  | [] => Val (passed_packages, failed_packages)
  | package :: rest =>
      let package_name := name package in
      match results !! i with
      | None => Exn IndexError
      | Some r =>
          if truthy_result r then
            classify (S i) rest results
              (passed_packages ++ [package_name]) failed_packages
          else
            classify (S i) rest results
              passed_packages (failed_packages ++ [package_name])
      end
  end.

Definition run_tests_parallel (packages_to_test : list PluginPackage)
  : M (list string * list string) :=
  let passed_packages := [] in
  let failed_packages := [] in
  emit (Makedirs "logs") ;;
  emit (PoolMapped (map name packages_to_test)) ;;
  results <- lift (pool_map (completion_picks env) (worker env)
                     packages_to_test) ;;
  lift (classify 0 packages_to_test results
          passed_packages failed_packages).

Definition module_logger : string := "nomad_plugin_tests.cli".

Fixpoint output_package_logs (packages_to_test : list PluginPackage)
  : M unit :=
  match packages_to_test with
  | [] => ret tt
  | package :: rest =>
      let package_name := name package in
      let log_file_path :=
        "logs/" +:+ package_name +:+ "/test_output.log" in
      (fun t =>
         match read_file env t log_file_path with
         | FileContents log_contents =>
             emit (Printed (nl +:+ "--- Log Output for " +:+ package_name
                            +:+ " ---" +:+ nl +:+ log_contents)) t
         | FileNotFound =>
             emit (Logged module_logger ERROR
                     ("Log file not found for package: " +:+ package_name
                      +:+ " at " +:+ log_file_path)) t
         | FileError e =>
             emit (Logged module_logger ERROR
                     ("Error reading log file for package "
                      +:+ package_name +:+ ": " +:+ e)) t
         end) ;;
      output_package_logs rest
  end.

Definition is_nil {A} (l : list A) : bool :=
  match l with [] => true | _ => false end.

(** Lines 369-376: the packages that are not on the skip list. *)
Definition candidates (plugin_packages : list (string * PluginPackage))
    (plugins_to_skip : option string) : list PluginPackage :=
  let plugins_to_skip_list :=
    if truthy plugins_to_skip
    then map strip (split "," (fmt plugins_to_skip)) else [] in
  map snd
    (filter (fun '(name, package) => name ∉ plugins_to_skip_list)
       plugin_packages).

Definition test_plugins (plugin_packages : list (string * PluginPackage))
    (plugins_to_skip : option string) (ci_node_total ci_node_index : Z)
  : M unit :=
  let packages_to_test := candidates plugin_packages plugins_to_skip in
  packages_to_test <-
    lift (split_packages packages_to_test ci_node_total ci_node_index) ;;
  if is_nil packages_to_test then
    emit (Printed "No plugins found to test based on the provided names.") ;;
    raise (SystemExit 0)
  else
    lists <- run_tests_parallel packages_to_test ;;
    let '(passed_packages, failed_packages) := lists in
    output_package_logs packages_to_test ;;
    (if negb (is_nil passed_packages) then
       emit (Printed ("Tests passed for packages: "
                      +:+ join ", " passed_packages))
     else emit (Printed "No packages passed the tests.")) ;;
    if negb (is_nil failed_packages) then
      emit (Printed ("Tests failed for packages: "
                     +:+ join ", " failed_packages)) ;;
      raise (SystemExit 1)
    else
      emit (Printed "No packages failed the tests.").

(** The status the process ends with: [sys.exit(n)] gives [n], a normal
    return 0, any other uncaught exception 1. *)
Definition exit_status {A} (r : Result A) : Z :=
  match r with
  | Val _ => 0
  | Exn (SystemExit code) => code
  | Exn _ => 1
  end.

(** The process as a whole ([if __name__ == "__main__": test_plugins()]):
    the command run from an empty trace on what [get_plugin_packages()]
    returned, in dictionary order, and on the values of the three
    options. *)
Definition main (plugin_packages : list (string * PluginPackage))
    (plugins_to_skip : option string) (ci_node_total ci_node_index : Z)
  : Z :=
  exit_status
    (test_plugins plugin_packages plugins_to_skip
       ci_node_total ci_node_index []).1.

End Dispatch.

(** ** Vocabulary of the statements *)

(** The three candidates in the order [get_git_url] tries them, the first
    one with its [.git] suffix. *)
Definition url_candidates (p : PluginPackage) : list (option string) :=
  [with_git_suffix <$> github_url p; repository p; homepage p].

(** No non-empty tail of [sub] starts [s]. *)
Fixpoint no_tail_starts (sub s : string) : bool :=
  match sub with
  | EmptyString => true
  | String _ sub' => negb (String.prefix sub s) && no_tail_starts sub' s
  end.

(** What one completion does to the slots of the pool. *)
Definition store {B} (x : nat * Result B) (slots : list (option B))
  : list (option B) :=
  match x with
  | (i, Val b) => <[i := Some b]> slots
  | (_, Exn _) => slots
  end.

(** All pending tasks completed, in list order. *)
Definition fill {B} (pending : list (nat * Result B))
    (slots : list (option B)) : list (option B) :=
  foldr store slots pending.

Definition slot_of {A B} (f : A -> Result B) (x : A) : option B :=
  match f x with Val b => Some b | Exn _ => None end.

(** A computation is orderly when it only ever adds to the trace and the
    only errors that leave it are the unplanned ones of the command
    runner. *)
Definition orderly {A} (m : M A) : Prop :=
  forall t,
    (exists evs, (m t).2 = t ++ evs) /\
    (forall e, (m t).1 = Exn e -> exists what, e = Unexpected what).

(** The packages of [packages] whose result, at the same position of
    [results], has the truth value [want]. *)
Fixpoint names_where (want : bool) (packages : list PluginPackage)
    (results : list (option bool)) : list string :=
  match packages, results with
  | package :: packages', r :: results' =>
      if Bool.eqb (truthy_result r) want
      then name package :: names_where want packages' results'
      else names_where want packages' results'
  | _, _ => []
  end.

(** What a package's own pipeline gives, an error counting as no result. *)
Definition outcome_of (env : Env) (p : PluginPackage) : option bool :=
  match worker env p with Val r => r | Exn _ => None end.

(** The package's own pipeline returned [True]. *)
Definition passes (env : Env) (p : PluginPackage) : bool :=
  truthy_result (outcome_of env p).

(** What the dispatcher itself leaves in the trace. *)
Definition dispatch_events (packages : list PluginPackage) : Trace :=
  [Makedirs "logs"; PoolMapped (map name packages)].

(** What [clone_and_test_package] does before its [try] block, and in its
    [finally] block. *)
Definition setup_events (p : PluginPackage) : Trace :=
  [Makedirs (log_dir_of p); RootHandlersCleared;
   FileHandlerOpened (log_file_path_of p);
   HandlerAdded (name p) (log_file_path_of p)].

Definition release_events (p : PluginPackage) : Trace :=
  [HandlerRemoved (name p) (log_file_path_of p);
   FileHandlerClosed (log_file_path_of p)].

Definition clone_event (p : PluginPackage) (dir : string) (out : Outcome)
  : Event :=
  Ran (clone_command p dir) CwdNone out.

(** ** Sample packages and environments *)

Module Samples.

Definition plugin (n : string) (v repo gh commit_ : option string)
  : PluginPackage :=
  mkPluginPackage n None v None None repo gh commit_ [].

(** Every external command succeeds. *)
Definition all_succeed : Env :=
  mkEnv (fun _ _ _ => Returns true) (fun _ => None)
    (fun _ => "/tmp/plugin") "/work" name (fun _ _ => FileNotFound) [].

(** Clone and fetch succeed, no checkout does. *)
Definition checkouts_fail : Env :=
  mkEnv (fun _ argv _ =>
           Returns (bool_decide (argv !! 1%nat <> Some (Some "checkout"))))
    (fun _ => None) (fun _ => "/tmp/plugin") "/work" name
    (fun _ _ => FileNotFound) [].

(** Every external command reports failure. *)
Definition all_fail : Env :=
  mkEnv (fun _ _ _ => Returns false) (fun _ => None)
    (fun _ => "/tmp/plugin") "/work" name (fun _ _ => FileNotFound) [].

Definition crashing_url : string := "https://github.com/org/crashing.git".

(** The command runner breaks down on every command of one package. *)
Definition one_crashes : Env :=
  mkEnv (fun _ argv _ =>
           if bool_decide (Some crashing_url ∈ argv)
           then Raises "disk full" else Returns true)
    (fun _ => None) (fun _ => "/tmp/plugin") "/work" name
    (fun _ _ => FileNotFound) [1%nat].

Definition crashing : PluginPackage :=
  plugin "crashing" (Some "1.0.0") None (Some crashing_url) None.

Definition healthy : PluginPackage :=
  plugin "healthy" (Some "1.0.0") None
    (Some "https://github.com/org/healthy.git") None.

Definition pinned : PluginPackage :=
  plugin "pinned" (Some "1.2.3") None
    (Some "https://github.com/org/pinned.git") (Some "abc123").


Definition placeholder : PluginPackage :=
  plugin "placeholder" (Some "0.0.0") None
    (Some "https://github.com/org/placeholder.git") None.

Definition placeholder_v : PluginPackage :=
  plugin "placeholder" (Some "v0.0.0") None
    (Some "https://github.com/org/placeholder.git") None.


End Samples.
Import Samples.

(** ** Vocabulary of the further statements *)

(** The external commands of a trace, in the order in which they were
    run. *)
Definition commands (evs : Trace) : Trace :=
  List.filter (fun ev => match ev with Ran _ _ _ => true | _ => false end)
    evs.

(** The tag names [clone_and_checkout] derives from a version. *)
Definition tag_with_v (v : string) : string := "v" +:+ v.

Definition tag_failed (lg tag : string) : Event :=
  Logged lg ERROR ("Failed to fetch tag '" +:+ tag +:+ "'.").

(** A computation emits only [P]-events when all it does is add events
    that satisfy [P] to the trace. *)
Definition emits {A} (P : Event -> Prop) (m : M A) : Prop :=
  forall t, exists evs, (m t).2 = t ++ evs /\ Forall P evs.

(** What a stage that works in the directory [dir] for the logger [lg] may
    leave in the trace: log records of that logger, and commands that run
    in no directory of their own, in [dir], or in the working directory. *)
Definition stage_event (env : Env) (lg dir : string) (ev : Event) : Prop :=
  match ev with
  | Logged l _ _ => l = lg
  | Ran _ cwd _ =>
      cwd = CwdNone \/ cwd = CwdDefault \/ cwd = Cwd dir
      \/ cwd = Cwd (getcwd env)
  | _ => False
  end.

(** What the [try] block of [clone_and_test_package] may leave in the
    trace: log records of the package's logger, commands, and the
    temporary directory coming and going. *)
Definition pipeline_event (lg : string) (ev : Event) : Prop :=
  match ev with
  | Logged l _ _ => l = lg
  | Ran _ _ _ | TempDirCreated _ | TempDirRemoved _ => True
  | _ => False
  end.

Module MoreSamples.

(** Every [git fetch] reports failure, everything else succeeds. *)
Definition fetches_fail : Env :=
  mkEnv (fun _ argv _ =>
           Returns (bool_decide (argv !! 1%nat <> Some (Some "fetch"))))
    (fun _ => None) (fun _ => "/tmp/plugin") "/work" name
    (fun _ _ => FileNotFound) [].

(** The pinned commit cannot be fetched, everything else succeeds. *)
Definition commit_unavailable : Env :=
  mkEnv (fun _ argv _ =>
           Returns (bool_decide (argv !! 1%nat <> Some (Some "fetch")
                                 \/ argv !! 3%nat = Some (Some "--tags"))))
    (fun _ => None) (fun _ => "/tmp/plugin") "/work" name
    (fun _ _ => FileNotFound) [].

(** Only the clone succeeds. *)
Definition only_clone_succeeds : Env :=
  mkEnv (fun _ argv _ =>
           Returns (bool_decide (argv !! 1%nat = Some (Some "clone"))))
    (fun _ => None) (fun _ => "/tmp/plugin") "/work" name
    (fun _ _ => FileNotFound) [].

(** A pinned commit together with a dev version. *)
Definition pinned_dev : PluginPackage :=
  Samples.plugin "pinned_dev" (Some "2.0.0.dev1") None
    (Some "https://github.com/org/pinned_dev.git") (Some "abc123").

End MoreSamples.
Import MoreSamples.

(** What [output_package_logs] leaves in the trace for one package, by
    what reading the log file of the package gave at that moment: the
    contents, printed under a header, or an error record of the module's
    logger that says what went wrong. *)
Definition log_output_of (env : Env) (t : Trace) (p : PluginPackage)
    (ev : Event) : Prop :=
  match read_file env t ("logs/" +:+ name p +:+ "/test_output.log") with
  | FileContents log_contents =>
      ev = Printed (nl +:+ "--- Log Output for " +:+ name p +:+ " ---"
                    +:+ nl +:+ log_contents)
  | FileNotFound =>
      ev = Logged module_logger ERROR
             ("Log file not found for package: " +:+ name p +:+ " at "
              +:+ "logs/" +:+ name p +:+ "/test_output.log")
  | FileError e =>
      ev = Logged module_logger ERROR
             ("Error reading log file for package " +:+ name p +:+ ": "
              +:+ e)
  end.

(** The names on the skip list, as [test_plugins] reads them. *)
Definition skip_items (plugins_to_skip : option string) : list string :=
  if truthy plugins_to_skip
  then map strip (split "," (fmt plugins_to_skip)) else [].

(** ** [parsing.py]: building the descriptors *)

Module PyStr2.

(** [s.split(sep, 1)[0]]: what stands before the first [sep], all of [s]
    when there is none. *)
Fixpoint before_first (sep : ascii) (s : string) : string :=
  match s with
  | EmptyString => ""
  | String c s' => if Ascii.eqb c sep then "" else String c (before_first sep s')
  end.

(** [a, b = s.split(sep, 1)]: the two parts around the first [sep];
    [None] stands for the [ValueError] of the unpacking when there is no
    [sep]. *)
Fixpoint split_once (sep : ascii) (s : string) : option (string * string) :=
  match s with
  | EmptyString => None
  | String c s' =>
      if Ascii.eqb c sep then Some ("", s')
      else match split_once sep s' with
           | Some (a, b) => Some (String c a, b)
           | None => None
           end
  end.

(** [s.lower()], on the ASCII range. *)
Definition lower_char (c : ascii) : ascii :=
  let n := nat_of_ascii c in
  if ((65 <=? n) && (n <=? 90))%nat then ascii_of_nat (n + 32) else c.

Fixpoint lower (s : string) : string :=
  match s with
  | EmptyString => ""
  | String c s' => String (lower_char c) (lower s')
  end.

(** [s.replace(a, b)] for one-character [a] and [b]. *)
Fixpoint replace_char (a b : ascii) (s : string) : string :=
  match s with
  | EmptyString => ""
  | String c s' =>
      String (if Ascii.eqb c a then b else c) (replace_char a b s')
  end.

End PyStr2.
Import PyStr2.

(** What [importlib.metadata] hands over for an entry point: the
    distribution it belongs to, when there is one, with the metadata
    fields that are read. *)
Record Distribution : Type := mkDistribution {
  summary : option string;
  dist_version : option string;
  project_url : option (list string)
}.

Record EntryPoint : Type := mkEntryPoint {
  ep_name : string;
  ep_value : string;
  ep_dist : option Distribution
}.

(** The inner loop of [get_plugin_packages] (lines 155-160): the
    [Project-URL] entries, [label, url], by lower-cased label; an entry
    without a comma is reported and left out. *)
Fixpoint project_urls (url_list : list string)
    (url_dict : gmap string string) : M (gmap string string) :=
  match url_list with
  | [] => ret url_dict
  | url :: rest =>
      match split_once "," url with
      | Some (name, value) =>
          project_urls rest (<[lower name := strip value]> url_dict)
      | None =>
          emit (Printed ("Warning: Invalid Project-URL format: " +:+ url)) ;;
          project_urls rest url_dict
      end
  end.

(** [package_name] of line 150. *)
Definition package_name_of (entry_point : EntryPoint) : string :=
  before_first ":" (before_first "." (ep_value entry_point)).

(** Lines 162-181: the descriptor of a package seen for the first time. *)
Definition new_plugin_package (git_packages : gmap string LockGitInfo)
    (entry_point : EntryPoint) (dist : Distribution)
    (url_dict : gmap string string) : PluginPackage :=
  let key := ep_value entry_point in
  let package_name := package_name_of entry_point in
  let plugin_package :=
    mkPluginPackage package_name (summary dist) (dist_version dist)
      (url_dict !! "homepage") (url_dict !! "documentation")
      (url_dict !! "repository") None None [key] in
  let git_package_name := replace_char "_" "-" (name plugin_package) in
  let git_info := git_packages !! git_package_name in
  attach_git_info git_info plugin_package.

(** The body of the loop of [get_plugin_packages] (lines 147-186), the
    dictionary being a list of its items in insertion order. An entry
    point without a distribution makes [entry_point.dist.metadata] fail,
    which the [except] clause reports. *)
Definition process_entry_point (git_packages : gmap string LockGitInfo)
    (plugin_packages : list (string * PluginPackage))
    (entry_point : EntryPoint) : M (list (string * PluginPackage)) :=
  let package_name := package_name_of entry_point in
  match ep_dist entry_point with
  | None =>
      emit (Printed ("Error processing plugin " +:+ ep_name entry_point
                     +:+ ": 'NoneType' object has no attribute 'metadata'")) ;;
      ret plugin_packages
  | Some dist =>
      url_dict <- project_urls (default [] (project_url dist)) ∅ ;;
      if bool_decide (package_name ∈ map fst plugin_packages) then
        ret plugin_packages
      else
        ret (plugin_packages
               ++ [(package_name,
                    new_plugin_package git_packages entry_point dist
                      url_dict)])
  end.

Fixpoint process_entry_points (git_packages : gmap string LockGitInfo)
    (plugin_packages : list (string * PluginPackage))
    (plugin_entry_points : list EntryPoint)
  : M (list (string * PluginPackage)) :=
  match plugin_entry_points with
  | [] => ret plugin_packages
  | entry_point :: rest =>
      plugin_packages' <-
        process_entry_point git_packages plugin_packages entry_point ;;
      process_entry_points git_packages plugin_packages' rest
  end.

(** [get_plugin_packages], given what [_load_and_parse_data()] and
    [entry_points(group="nomad.plugin")] returned. *)
Definition get_plugin_packages (git_packages : gmap string LockGitInfo)
    (plugin_entry_points : list EntryPoint)
  : M (list (string * PluginPackage)) :=
  process_entry_points git_packages [] plugin_entry_points.

(** The label dictionary the inner loop ends with, warnings aside. *)
Definition project_url_dict (url_list : list string)
    (url_dict : gmap string string) : gmap string string :=
  foldl (fun d url =>
           match split_once "," url with
           | Some (name, value) => <[lower name := strip value]> d
           | None => d
           end) url_dict url_list.

(** The descriptor [get_plugin_packages] builds from an entry point and
    its distribution. *)
Definition descriptor (git_packages : gmap string LockGitInfo)
    (entry_point : EntryPoint) (dist : Distribution) : PluginPackage :=
  new_plugin_package git_packages entry_point dist
    (project_url_dict (default [] (project_url dist)) ∅).

(** The dictionary after one more entry point, messages aside. *)
Definition add_entry_point (git_packages : gmap string LockGitInfo)
    (plugin_packages : list (string * PluginPackage))
    (entry_point : EntryPoint) : list (string * PluginPackage) :=
  match ep_dist entry_point with
  | None => plugin_packages
  | Some dist =>
      if bool_decide (package_name_of entry_point ∈ map fst plugin_packages)
      then plugin_packages
      else plugin_packages
             ++ [(package_name_of entry_point,
                  descriptor git_packages entry_point dist)]
  end.

(** A dictionary of descriptors as [test_plugins] expects it: no key
    twice, and every descriptor under its own name. *)
Definition well_keyed (plugin_packages : list (string * PluginPackage))
  : Prop :=
  NoDup (map fst plugin_packages)
  /\ Forall (fun kp => name kp.2 = kp.1) plugin_packages.

(** ** [parsing.py]: the git dependencies of [pyproject.toml] *)

(** The fragment of Python's regular expressions that [parsing.py] uses
    on the plugin lines: literals, [c+] and [c+?] over a character class,
    groups and sequences, matched by backtracking with the priorities of
    [re]: a greedy [+] tries the longest run first, a lazy one the
    shortest. Groups are not nested, so that they close in the order of
    their numbers. *)
Module Regex.

Inductive Re : Type :=
| Lit (s : string)
| Plus (greedy : bool) (cls : ascii -> bool)
| Group (r : Re)
| Seq (r1 r2 : Re).

(** What is left of [s] after the literal [l], if [s] starts with it. *)
Fixpoint after_literal (l s : string) : option string :=
  match l, s with
  | EmptyString, _ => Some s
  | String a l', String b s' =>
      if Ascii.eqb a b then after_literal l' s' else None
  | String _ _, EmptyString => None
  end.

Fixpoint plus_greedy {R} (cls : ascii -> bool) (s : string)
    (k : string -> option R) : option R :=
  match s with
  | String a s' =>
      if cls a then
        match plus_greedy cls s' k with
        | Some r => Some r
        | None => k s'
        end
      else None
  | EmptyString => None
  end.

Fixpoint plus_lazy {R} (cls : ascii -> bool) (s : string)
    (k : string -> option R) : option R :=
  match s with
  | String a s' =>
      if cls a then
        match k s' with
        | Some r => Some r
        | None => plus_lazy cls s' k
        end
      else None
  | EmptyString => None
  end.

(** The part of [s] that was consumed when [rest] is what is left. *)
Definition consumed (s rest : string) : string :=
  String.substring 0 (String.length s - String.length rest) s.

(** Matching [r] at the start of [s], then going on with [k] on what is
    left and on the groups closed so far. *)
Fixpoint run (r : Re) (s : string) (groups : list string)
    (k : string -> list string -> option (list string))
  : option (list string) :=
  match r with
  | Lit l =>
      match after_literal l s with
      | Some rest => k rest groups
      | None => None
      end
  | Plus true cls => plus_greedy cls s (fun rest => k rest groups)
  | Plus false cls => plus_lazy cls s (fun rest => k rest groups)
  | Group r' =>
      run r' s groups (fun rest groups' => k rest (groups' ++ [consumed s rest]))
  | Seq r1 r2 =>
      run r1 s groups (fun rest groups' => run r2 rest groups' k)
  end.

(** [re.match(r, s)]: a match at the start of [s], with its groups. *)
Definition re_match (r : Re) (s : string) : option (list string) :=
  run r s [] (fun _ groups => Some groups).

(** [\S], on the ASCII range. *)
Definition non_space (c : ascii) : bool := negb (is_space c).

End Regex.
Import Regex.

(** [r"(\S+) @ git\+(\S+?)@(\S+)"] (line 59). *)
Definition plugin_line_pattern : Re :=
  Seq (Group (Plus true non_space))
    (Seq (Lit " @ git+")
       (Seq (Group (Plus false non_space))
          (Seq (Lit "@") (Group (Plus true non_space))))).

(** The error [_parse_git_packages] raises, with its message. *)
Inductive ParseError : Type :=
| KeyError (msg : string).

(** The tables of [pyproject.toml] on the way to the plugin list. *)
Definition TomlData : Type :=
  gmap string (gmap string (gmap string (list string))).

Definition toml_key {V} (key : string) (table : gmap string V)
  : ParseError + V :=
  match table !! key with
  | Some v => inr v
  | None => inl (KeyError ("Missing key in toml_data: '" +:+ key +:+ "'"))
  end.

(** The body of the loop of [_parse_git_packages] (lines 58-69). *)
Definition parse_plugin_line (lock_data : gmap string LockGitInfo)
    (git_packages : gmap string LockGitInfo) (line : string)
  : gmap string LockGitInfo :=
  match re_match plugin_line_pattern line with
  | Some [group1; group2; group3] =>
      let package_name := strip group1 in
      let url := group2 in
      let commit_hash := group3 in
      (* Prioritize lock data if available *)
      match lock_data !! package_name with
      | Some info => <[package_name := info]> git_packages
      | None => <[package_name := mkLockGitInfo commit_hash url]> git_packages
      end
  | _ => git_packages
  end.

Definition _parse_git_packages (toml_data : TomlData)
    (lock_data : gmap string LockGitInfo)
  : ParseError + gmap string LockGitInfo :=
  let git_packages : gmap string LockGitInfo := ∅ in
  match toml_key "project" toml_data with
  | inl e => inl e
  | inr project =>
      match toml_key "optional-dependencies" project with
      | inl e => inl e
      | inr optional_dependencies =>
          match toml_key "plugins" optional_dependencies with
          | inl e => inl e
          | inr plugins =>
              inr (foldl (parse_plugin_line lock_data) git_packages plugins)
          end
      end
  end.

(** Every character of [s] is in the class. *)
Fixpoint all_chars (cls : ascii -> bool) (s : string) : bool :=
  match s with
  | EmptyString => true
  | String c s' => cls c && all_chars cls s'
  end.

(** [s] starts with a character of the class. *)
Definition starts_in (cls : ascii -> bool) (s : string) : bool :=
  match s with
  | EmptyString => false
  | String c _ => cls c
  end.

Definition not_at (c : ascii) : bool := negb (Ascii.eqb c "@").

Definition tail (s : string) : string :=
  match s with
  | EmptyString => ""
  | String _ s' => s'
  end.

(** A plugin line as the pattern reads it: a name, a URL and a revision
    without blanks, the URL with no ["@"] after its first character, and
    after the revision nothing or a blank. *)
Definition plugin_line_shape (name url rev rest : string) : Prop :=
  name <> "" /\ all_chars non_space name = true
  /\ url <> "" /\ all_chars non_space url = true
  /\ all_chars not_at (tail url) = true
  /\ rev <> "" /\ all_chars non_space rev = true
  /\ starts_in non_space rest = false.

Definition plugin_line (name url rev rest : string) : string :=
  name +:+ " @ git+" +:+ url +:+ "@" +:+ rev +:+ rest.
(** The list [toml_data["project"]["optional-dependencies"]["plugins"]],
    when the three tables are there. *)
Definition plugins_of (toml_data : TomlData) : option (list string) :=
  project ← toml_data !! "project" ;
  optional_dependencies ← project !! "optional-dependencies" ;
  optional_dependencies !! "plugins".

(** [info] is what one of the lines says about the package [k]. *)
Definition from_line (plugins : list string) (k : string)
    (info : LockGitInfo) : Prop :=
  exists rest,
    plugin_line k (url info) (commit info) rest ∈ plugins
    /\ plugin_line_shape k (url info) (commit info) rest.

(** The entries of the result come from the lock data, or else from a
    line. *)
Definition entry_origin (lock_data : gmap string LockGitInfo)
    (plugins : list string) (git_packages : gmap string LockGitInfo)
  : Prop :=
  forall k info,
    git_packages !! k = Some info ->
    lock_data !! k = Some info
    \/ (lock_data !! k = None /\ from_line plugins k info).

Module ParsingSamples.

Definition one_line : string :=
  "nomad-x @ git+https://github.com/o/x.git@abc123".

Definition toml_sample : TomlData :=
  {[ "project" :=
       {[ "optional-dependencies" := {[ "plugins" := [one_line] ]} ]} ]}.

Definition lock_sample : gmap string LockGitInfo :=
  {[ "nomad-x" := mkLockGitInfo "abc123" "https://github.com/o/x.git" ]}.

Definition dist_sample : Distribution :=
  mkDistribution (Some "A plugin") (Some "1.0")
    (Some ["Repository, https://github.com/o/x"]).

Definition ep_sample : EntryPoint :=
  mkEntryPoint "x_app" "nomad_x.apps:x_app" (Some dist_sample).

Definition ep_broken : EntryPoint :=
  mkEntryPoint "y_app" "nomad_y.apps:y_app" None.

Definition descriptor_sample : PluginPackage :=
  mkPluginPackage "nomad_x" (Some "A plugin") (Some "1.0") None None
    (Some "https://github.com/o/x") (Some "https://github.com/o/x.git")
    (Some "abc123") ["nomad_x.apps:x_app"].

End ParsingSamples.
Import ParsingSamples.

(** * Part II: lemmas and theorems *)

(** ** The model on small inputs *)

Example split_5_2_1 :
  split_packages [1; 2; 3; 4; 5] 2 1 = Val [1; 2; 3].
Proof. reflexivity. Qed.

Example split_5_2_2 :
  split_packages [1; 2; 3; 4; 5] 2 2 = Val [4; 5].
Proof. reflexivity. Qed.

Example get_git_url_adds_suffix :
  get_git_url (mkPluginPackage "p" None None None None None
                 (Some "https://github.com/org/repo") None [])
  = Some "https://github.com/org/repo.git".
Proof. reflexivity. Qed.

Example split_strip_skip_list :
  map strip (split "," "a, b ,c") = ["a"; "b"; "c"].
Proof. reflexivity. Qed.

Example pool_map_keeps_input_order :
  pool_map [2; 0; 1]%nat (fun x => Val (x + 1)) [10; 20; 30]
  = Val [11; 21; 31].
Proof. reflexivity. Qed.

(** ** Strings: what [in] and [endswith] decide *)

Section StringFacts.

Lemma prefix_nil (s : string) : String.prefix "" s = true.
Proof. destruct s; reflexivity. Qed.

Lemma prefix_spec (a s : string) :
  String.prefix a s = true <-> exists post, s = a +:+ post.
Proof.
  revert s. induction a as [|c a IH]; intros s.
  - rewrite prefix_nil. split; [intros _; exists s|]; reflexivity.
  - destruct s as [|d s]; simpl.
    + split; [discriminate | intros [post H]; discriminate].
    + destruct (ascii_dec c d) as [->|Hne].
      * rewrite IH. split; intros [post H]; exists post.
        -- simpl. now rewrite H.
        -- simpl in H. now inversion H.
      * split; [discriminate |].
        intros [post H]. simpl in H. inversion H. congruence.
Qed.

Lemma str_in_spec (sub s : string) :
  str_in sub s = true <-> exists pre post, s = pre +:+ sub +:+ post.
Proof.
  induction s as [|c s IH]; cbn [str_in].
  - rewrite orb_false_r, prefix_spec. split.
    + intros [post H]. exists "", post. exact H.
    + intros [pre [post H]]. destruct pre; [|discriminate].
      exists post. exact H.
  - rewrite orb_true_iff, prefix_spec, IH. split.
    + intros [[post H] | [pre [post H]]].
      * exists "", post. exact H.
      * exists (String c pre), post. simpl. now rewrite H.
    + intros [pre [post H]]. destruct pre as [|d pre]; simpl in H.
      * left. exists post. exact H.
      * right. inversion H. exists pre, post. reflexivity.
Qed.

Lemma endswith_spec (s suffix : string) :
  endswith s suffix = true <-> exists pre, s = pre +:+ suffix.
Proof.
  induction s as [|c s IH]; cbn [endswith].
  - rewrite orb_false_r, String.eqb_eq. split.
    + intros H. exists "". exact H.
    + intros [pre H]. destruct pre; [exact H | discriminate].
  - rewrite orb_true_iff, String.eqb_eq, IH. split.
    + intros [H | [pre H]].
      * exists "". exact H.
      * exists (String c pre). simpl. now rewrite H.
    + intros [pre H]. destruct pre as [|d pre]; simpl in H.
      * left. exact H.
      * right. inversion H. exists pre. reflexivity.
Qed.

Lemma prefix_app_r (sub s g : string) :
  no_tail_starts sub s = true ->
  String.prefix sub (g +:+ s) = String.prefix sub g.
Proof.
  revert g. induction sub as [|a sub IH]; intros g H;
    [now rewrite !prefix_nil|].
  cbn [no_tail_starts] in H. apply andb_true_iff in H as [H1 H2].
  apply negb_true_iff in H1.
  destruct g as [|c g].
  - change ("" +:+ s) with s. rewrite H1. reflexivity.
  - simpl. destruct (ascii_dec a c); [now apply IH | reflexivity].
Qed.

Lemma str_in_app_r (sub s g : string) :
  no_tail_starts sub s = true -> str_in sub s = false ->
  sub <> "" ->
  str_in sub (g +:+ s) = str_in sub g.
Proof.
  intros Ht Hs Hne. induction g as [|c g IH].
  - change ("" +:+ s) with s. rewrite Hs.
    destruct sub; [contradiction | reflexivity].
  - change (String c g +:+ s) with (String c (g +:+ s)).
    change (str_in sub (String c (g +:+ s)))
      with (String.prefix sub (String c (g +:+ s)) || str_in sub (g +:+ s)).
    rewrite IH.
    change (String c (g +:+ s)) with (String c g +:+ s).
    now rewrite prefix_app_r.
Qed.

(** Adding the [.git] suffix never makes or breaks validation. *)
Lemma is_valid_with_git_suffix (g : string) :
  is_valid_github_url (Some (with_git_suffix g))
  = is_valid_github_url (Some g).
Proof.
  unfold with_git_suffix, is_valid_github_url.
  destruct (negb (endswith g ".git")); [|reflexivity].
  apply str_in_app_r; [reflexivity | reflexivity | discriminate].
Qed.

Lemma with_git_suffix_endswith (g : string) :
  endswith (with_git_suffix g) ".git" = true.
Proof.
  unfold with_git_suffix. destruct (endswith g ".git") eqn:E; simpl.
  - exact E.
  - apply endswith_spec. exists g. reflexivity.
Qed.

End StringFacts.

(** ** The partitioner: slices of a list *)

Section Partition.

Context {A : Type}.
Implicit Types (l : list A) (c k : nat).

Lemma slice_from l (start : Z) :
  0 <= start -> slice l start None = drop (Z.to_nat start) l.
Proof.
  intros Hs. unfold slice, clamp.
  destruct (Z.ltb_spec start 0) as [?|_]; [lia|].
  destruct (Z.le_gt_cases start (Z.of_nat (length l))) as [Hle|Hgt].
  - rewrite Z.min_l by lia. apply take_ge. rewrite length_drop. lia.
  - rewrite Z.min_r by lia. rewrite Z.sub_diag. simpl.
    symmetry. apply drop_ge. lia.
Qed.

Lemma slice_range l (start len : Z) :
  0 <= start -> 0 <= len ->
  slice l start (Some (start + len))
  = take (Z.to_nat len) (drop (Z.to_nat start) l).
Proof.
  intros Hs Hl. unfold slice, clamp.
  destruct (Z.ltb_spec start 0) as [?|_]; [lia|].
  destruct (Z.ltb_spec (start + len) 0) as [?|_]; [lia|].
  set (n := Z.of_nat (length l)).
  destruct (Z.le_gt_cases start n) as [Hle|Hgt].
  - rewrite (Z.min_l start) by lia.
    destruct (Z.le_gt_cases (start + len) n) as [Hle'|Hgt'].
    + rewrite Z.min_l by lia. f_equal. lia.
    + rewrite Z.min_r by lia.
      rewrite !take_ge; [reflexivity | |]; rewrite length_drop; lia.
  - rewrite !Z.min_r by lia. rewrite Z.sub_diag. simpl.
    rewrite (drop_ge l (Z.to_nat start)) by lia. now rewrite take_nil.
Qed.

(** [k] consecutive chunks of width [c] make up the first [k * c]
    elements. *)
Lemma concat_chunks l c k :
  concat (map (fun i => take c (drop (i * c) l)) (seq 0 k))
  = take (k * c) l.
Proof.
  induction k as [|k IH]; [reflexivity|].
  rewrite seq_S, map_app, concat_app, IH.
  cbn [map concat Nat.add]. rewrite app_nil_r, take_take_drop.
  f_equal. lia.
Qed.

(** What [split_packages] returns for an index in range, with the chunk
    width as a natural number. *)
Lemma split_packages_in_range l (total index : Z) :
  1 <= index <= total ->
  let chunk := (Z.of_nat (length l) + total - 1) / total in
  split_packages l total index
  = Val (if index =? total
         then drop (Z.to_nat ((index - 1) * chunk)) l
         else take (Z.to_nat chunk)
                (drop (Z.to_nat ((index - 1) * chunk)) l)).
Proof.
  intros Hi chunk. unfold split_packages, floordiv.
  destruct (Z.eqb_spec total 0) as [?|_]; [lia|]. fold chunk.
  assert (0 <= chunk) by (apply Z.div_pos; lia).
  destruct (index =? total).
  - rewrite slice_from by nia. reflexivity.
  - rewrite slice_range by nia. reflexivity.
Qed.

Lemma ceil_bounds (n total : Z) :
  0 <= n -> 1 <= total ->
  let chunk := (n + total - 1) / total in
  total * (chunk - 1) < n <= total * chunk.
Proof.
  intros Hn Ht chunk.
  pose proof (Z.div_mod (n + total - 1) total ltac:(lia)) as E.
  pose proof (Z.mod_pos_bound (n + total - 1) total ltac:(lia)) as B.
  fold chunk in E. nia.
Qed.

End Partition.

(** ** The worker pool: slots are filled by index *)

Section Pool.

Context {B : Type}.
Implicit Types (pending : list (nat * Result B)) (slots : list (option B)).

Lemma store_commute x y slots :
  x.1 <> y.1 -> store x (store y slots) = store y (store x slots).
Proof.
  destruct x as [i [a|e]], y as [j [b|e']]; simpl; intros Hne;
    try reflexivity.
  now apply list_insert_insert_ne.
Qed.

Lemma fill_store x pending slots :
  x.1 ∉ pending.*1 ->
  fill pending (store x slots) = store x (fill pending slots).
Proof.
  induction pending as [|y pending IH]; simpl; intros Hnot;
    [reflexivity|].
  apply not_elem_of_cons in Hnot as [Hne Hnot].
  rewrite IH by assumption. now apply store_commute.
Qed.

Lemma fill_delete k x pending slots :
  NoDup pending.*1 -> pending !! k = Some x ->
  fill (delete k pending) (store x slots) = fill pending slots.
Proof.
  revert k. induction pending as [|y pending IH]; intros k Hnd Hk;
    [discriminate|].
  apply NoDup_cons in Hnd as [Hy Hnd].
  destruct k as [|k]; simpl in *.
  - injection Hk as ->. now apply fill_store.
  - f_equal. now apply IH.
Qed.

Lemma pick_in_range (n : nat) pending :
  pending <> [] -> (n `mod` length pending < length pending)%nat.
Proof.
  intros Hne. apply Nat.mod_upper_bound.
  destruct pending; [contradiction | discriminate].
Qed.

(** One completion: the picked task leaves the pending ones. *)
Lemma pick_step (n : nat) pending x :
  pending !! (n `mod` length pending)%nat = Some x ->
  exists rest, delete (n `mod` length pending)%nat pending = rest /\
    pending ≡ₚ x :: rest /\ S (length rest) = length pending.
Proof.
  intros Hk. eexists; split; [reflexivity|]. split.
  - exact (delete_Permutation _ _ _ Hk).
  - apply lookup_lt_Some in Hk as Hlt.
    rewrite length_delete by eauto. lia.
Qed.

Lemma pick_none (n : nat) pending :
  pending !! (n `mod` length pending)%nat = None -> pending = [].
Proof.
  intros Hk. destruct pending as [|y pending]; [reflexivity|].
  apply lookup_ge_None in Hk.
  pose proof (pick_in_range n (y :: pending) ltac:(discriminate)). lia.
Qed.

(** Whatever the completion order, the slots end up as if the tasks had
    completed in list order. *)
Lemma pool_collect_slots fuel picks pending slots failure :
  (length pending <= fuel)%nat -> NoDup pending.*1 ->
  (pool_collect fuel picks pending slots failure).1 = fill pending slots.
Proof.
  revert picks pending slots failure.
  induction fuel as [|fuel IH]; intros picks pending slots failure Hlen Hnd.
  - destruct pending; [reflexivity | simpl in Hlen; lia].
  - cbn [pool_collect].
    destruct (pending !! _) as [[i r]|] eqn:Hk.
    + pose proof (fill_delete _ _ _ slots Hnd Hk) as Hfill.
      destruct (pick_step _ _ _ Hk) as (rest & Hrest & Hperm & Hlen').
      rewrite Hrest in *.
      assert (NoDup rest.*1) as Hnd'.
      { rewrite Hperm in Hnd. simpl in Hnd.
        now apply NoDup_cons in Hnd as [_ ?]. }
      destruct r as [b|e]; rewrite IH by (assumption || lia);
        exact Hfill.
    + apply pick_none in Hk. now subst pending.
Qed.

(** The error [map] re-raises: none if no task raised, otherwise one
    that some task raised. *)
Lemma pool_collect_failure fuel picks pending slots failure :
  (length pending <= fuel)%nat ->
  let failure' := (pool_collect fuel picks pending slots failure).2 in
  (failure' = None <->
     failure = None /\ Forall (fun x => is_exn x.2 = false) pending) /\
  (forall e, failure' = Some e ->
     failure = Some e \/ exists i, (i, Exn e) ∈ pending).
Proof.
  revert picks pending slots failure.
  induction fuel as [|fuel IH]; intros picks pending slots failure Hlen.
  - destruct pending; [|simpl in Hlen; lia]. simpl. split.
    + split; [intros ->; split; [reflexivity | constructor] | tauto].
    + intros e ->. now left.
  - cbn [pool_collect].
    destruct (pending !! _) as [[i r]|] eqn:Hk.
    + destruct (pick_step _ _ _ Hk) as (rest & Hrest & Hperm & Hlen').
      rewrite Hrest. clear Hk Hrest. destruct r as [b|e].
      * specialize (IH (tl picks) rest (<[i := Some b]> slots) failure
                      ltac:(lia)).
        cbv zeta in IH. destruct IH as [IH1 IH2]. split.
        -- rewrite IH1, Hperm, Forall_cons. simpl. tauto.
        -- intros e He. destruct (IH2 e He) as [?|[j Hj]]; [now left|].
           right. exists j. rewrite Hperm. now right.
      * specialize (IH (tl picks) rest slots (Some (default e failure))
                      ltac:(lia)).
        cbv zeta in IH. destruct IH as [IH1 IH2]. split.
        -- rewrite IH1, Hperm, Forall_cons. simpl.
           split; [intros [? _]; discriminate
                  | intros [_ [? _]]; discriminate].
        -- intros e' He'. destruct (IH2 e' He') as [Hd|[j Hj]].
           ++ destruct failure as [e0|]; simpl in Hd.
              ** now left.
              ** right. exists i. rewrite Hperm.
                 injection Hd as ->. now left.
           ++ right. exists j. rewrite Hperm. now right.
    + apply pick_none in Hk. subst pending. simpl. split.
      * split; [intros ->; split; [reflexivity | constructor] | tauto].
      * intros e ->. now left.
Qed.

Context {A : Type}.
Implicit Types (f : A -> Result B) (xs : list A).

Lemma fill_imap f xs (pre : list (option B)) :
  fill (imap (fun i x => ((length pre + i)%nat, f x)) xs)
       (pre ++ replicate (length xs) None)
  = pre ++ map (slot_of f) xs.
Proof.
  revert pre. induction xs as [|x xs IH]; intros pre; [reflexivity|].
  rewrite imap_cons. cbn [fill foldr length replicate map].
  fold (fill (imap ((fun i x => ((length pre + i)%nat, f x)) ∘ S) xs)
             (pre ++ None :: replicate (length xs) None)).
  rewrite (imap_ext _ (fun i x => ((length (pre ++ [None]) + i)%nat, f x)))
    by (intros i y _; simpl; rewrite length_app; simpl; f_equal; lia).
  replace (pre ++ None :: replicate (length xs) None)
    with ((pre ++ [None]) ++ replicate (length xs) None)
    by now rewrite <- app_assoc.
  rewrite IH, <- app_assoc. cbn [app].
  unfold store, slot_of. destruct (f x) as [b|e]; [|reflexivity].
  now rewrite insert_app_r.
Qed.

Lemma pending_indices f xs :
  (imap (fun i x => (i, f x)) xs).*1 = seq 0 (length xs).
Proof.
  rewrite fmap_imap.
  rewrite (imap_ext _ (fun i _ => id i)) by reflexivity.
  now rewrite imap_seq_0, list_fmap_id.
Qed.

Lemma omap_slots f xs :
  Forall (fun x => is_exn (f x) = false) xs ->
  Forall2 (fun x b => f x = Val b) xs (omap id (map (slot_of f) xs)).
Proof.
  induction 1 as [|x xs Hx _ IH]; [constructor|].
  cbn. unfold slot_of at 1. destruct (f x) as [b|e] eqn:E; [|discriminate].
  constructor; assumption.
Qed.

(** [pool.map]: the values in input order if every task returned,
    otherwise an error that one of the tasks raised. The completion
    order plays no part in the values. *)
Lemma pool_map_spec picks f xs :
  match pool_map picks f xs with
  | Val results => Forall2 (fun x b => f x = Val b) xs results
  | Exn e => exists x, x ∈ xs /\ f x = Exn e
  end.
Proof.
  unfold pool_map.
  pose proof (pool_collect_slots (length xs) picks
                (imap (fun i x => (i, f x)) xs)
                (replicate (length xs) None) None) as Hslots.
  pose proof (pool_collect_failure (length xs) picks
                (imap (fun i x => (i, f x)) xs)
                (replicate (length xs) None) None) as Hfail.
  rewrite length_imap in Hslots, Hfail.
  specialize (Hslots ltac:(lia)). specialize (Hfail ltac:(lia)).
  rewrite pending_indices in Hslots.
  specialize (Hslots (NoDup_seq _ _)).
  pose proof (fill_imap f xs []) as Hfill. simpl in Hfill.
  rewrite Hfill in Hslots. clear Hfill.
  destruct (pool_collect _ _ _ _ _) as [slots failure].
  simpl in Hslots, Hfail. subst slots. destruct Hfail as [Hnone Hsome].
  destruct failure as [e|].
  - destruct (Hsome e eq_refl) as [?|[i Hi]]; [discriminate|].
    apply elem_of_lookup_imap in Hi as (j & x & Heq & Hx).
    injection Heq as _ Heq. exists x. split; [|now symmetry].
    eapply list_elem_of_lookup_2, Hx.
  - apply omap_slots. destruct Hnone as [Hnone _].
    destruct (Hnone eq_refl) as [_ Hall].
    apply Forall_forall. intros x Hx.
    apply list_elem_of_lookup in Hx as [i Hi].
    eapply Forall_forall in Hall;
      [|exact (elem_of_lookup_imap_2 _ _ _ _ Hi)].
    exact Hall.
Qed.

Lemma pool_map_returns picks f (g : A -> B) xs :
  (forall x, x ∈ xs -> f x = Val (g x)) ->
  pool_map picks f xs = Val (map g xs).
Proof.
  intros Hall. pose proof (pool_map_spec picks f xs) as Hspec.
  destruct (pool_map picks f xs) as [results|e].
  - f_equal. clear picks. induction Hspec as [|x b xs results Hx _ IH].
    + reflexivity.
    + rewrite (Hall x) in Hx by left. injection Hx as <-.
      simpl. f_equal. apply IH. intros y Hy. apply Hall. now right.
  - destruct Hspec as (x & Hx & He). rewrite (Hall x Hx) in He.
    discriminate.
Qed.

Lemma pool_map_raises picks f xs x e :
  x ∈ xs -> f x = Exn e ->
  exists e' x', x' ∈ xs /\ f x' = Exn e' /\ pool_map picks f xs = Exn e'.
Proof.
  intros Hx He. pose proof (pool_map_spec picks f xs) as Hspec.
  destruct (pool_map picks f xs) as [results|e'].
  - exfalso. induction Hspec as [|y b ys results Hy _ IH].
    + inversion Hx.
    + apply elem_of_cons in Hx as [->|Hx]; [congruence | auto].
  - destruct Hspec as (x' & Hx' & He'). eauto.
Qed.

End Pool.

(** ** Running the pipeline step by step *)

Section Steps.

Variable env : Env.

Lemma bind_val {A B} (m : M A) (k : A -> M B) t a t' :
  m t = (Val a, t') -> bind m k t = k a t'.
Proof. unfold bind. now intros ->. Qed.

Lemma bind_exn {A B} (m : M A) (k : A -> M B) t e t' :
  m t = (Exn e, t') -> bind m k t = (Exn e, t').
Proof. unfold bind. now intros ->. Qed.

Lemma run_command_returns argv cwd t ok :
  run_command_oracle env t argv cwd = Returns ok ->
  run_command env argv cwd t = (Val ok, t ++ [Ran argv cwd (Returns ok)]).
Proof. unfold run_command. now intros ->. Qed.

Lemma run_command_raises argv cwd t what :
  run_command_oracle env t argv cwd = Raises what ->
  run_command env argv cwd t
  = (Exn (Unexpected what), t ++ [Ran argv cwd (Raises what)]).
Proof. unfold run_command. now intros ->. Qed.

Lemma log_emits logger lvl msg t :
  lvl <> DEBUG ->
  log logger lvl msg t = (Val tt, t ++ [Logged logger lvl msg]).
Proof. now destruct lvl. Qed.

Lemma log_debug_dropped logger msg t :
  log logger DEBUG msg t = (Val tt, t).
Proof. reflexivity. Qed.

End Steps.

(** ** Orderly computations

    Every stage of the per-package pipeline only adds to the trace and
    lets out no error but those of the command runner. *)

Section Orderly.

Variable env : Env.

Lemma orderly_ret {A} (a : A) : orderly (ret a).
Proof.
  intros t. split; [exists []; simpl; now rewrite app_nil_r | discriminate].
Qed.

Lemma orderly_emit ev : orderly (emit ev).
Proof. intros t. split; [now exists [ev] | discriminate]. Qed.

Lemma orderly_log logger lvl msg : orderly (log logger lvl msg).
Proof. destruct lvl; [apply orderly_ret | apply orderly_emit ..]. Qed.

Lemma orderly_run_command argv cwd : orderly (run_command env argv cwd).
Proof.
  intros t. unfold run_command.
  destruct (run_command_oracle env t argv cwd) as [ok|what]; simpl.
  - split; [eauto | discriminate].
  - split; [eauto | intros e [= <-]; eauto].
Qed.

Lemma orderly_bind {A B} (m : M A) (k : A -> M B) :
  orderly m -> (forall a, orderly (k a)) -> orderly (bind m k).
Proof.
  intros Hm Hk t. unfold bind.
  destruct (Hm t) as [[evs Hevs] Hexn].
  destruct (m t) as [[a|e] t1]; simpl in *; subst t1.
  - destruct (Hk a (t ++ evs)) as [[evs' Hevs'] Hexn']. split.
    + exists (evs ++ evs'). now rewrite Hevs', app_assoc.
    + exact Hexn'.
  - split; [eauto | intros e' [= <-]; eauto].
Qed.

Lemma orderly_try_finally {A} (body : M A) (fin : M unit) :
  orderly body -> orderly fin -> orderly (try_finally body fin).
Proof.
  intros Hb Hf t. unfold try_finally.
  destruct (Hb t) as [[evs Hevs] Hexn].
  destruct (body t) as [r t1]; simpl in *; subst t1.
  destruct (Hf (t ++ evs)) as [[evs' Hevs'] Hexn'].
  destruct (fin (t ++ evs)) as [[[]|e] t2]; simpl in *; subst t2.
  - split; [exists (evs ++ evs'); now rewrite app_assoc | exact Hexn].
  - split; [exists (evs ++ evs'); now rewrite app_assoc|].
    intros e' [= <-]. now apply Hexn'.
Qed.

Lemma orderly_with_TemporaryDirectory {A} (body : string -> M A) :
  (forall d, orderly (body d)) -> orderly (with_TemporaryDirectory env body).
Proof.
  intros Hb t. unfold with_TemporaryDirectory.
  apply orderly_bind; [apply orderly_emit|]. intros _.
  apply orderly_try_finally; [apply Hb | apply orderly_emit].
Qed.

(** Walks down a pipeline stage: one combinator, or one branch, at a
    time. *)
Ltac orderly_step :=
  lazymatch goal with
  | |- orderly (ret _) => apply orderly_ret
  | |- orderly (emit _) => apply orderly_emit
  | |- orderly (log _ _ _) => apply orderly_log
  | |- orderly (run_command _ _ _) => apply orderly_run_command
  | |- orderly (bind _ _) => apply orderly_bind; [|intros ?]
  | |- orderly (try_finally _ _) => apply orderly_try_finally
  | |- orderly (with_TemporaryDirectory _ _) =>
      apply orderly_with_TemporaryDirectory; intros ?
  | |- orderly (if ?b then _ else _) => destruct b
  | |- orderly (match ?o with Some _ => _ | None => _ end) => destruct o
  end.

Lemma orderly_checkout_tag repo_path tag_name lg :
  orderly (checkout_tag env repo_path tag_name lg).
Proof. unfold checkout_tag. repeat orderly_step. Qed.

Lemma orderly_checkout_commit p dir lg :
  orderly (checkout_commit env p dir lg).
Proof. unfold checkout_commit. repeat orderly_step. Qed.

Lemma orderly_checkout_version p dir lg ok :
  orderly (checkout_version env p dir lg ok).
Proof.
  unfold checkout_version.
  repeat first [apply orderly_checkout_tag | orderly_step].
Qed.

Lemma orderly_checkout_stage p dir lg :
  orderly (checkout_stage env p dir lg).
Proof.
  unfold checkout_stage.
  repeat first [apply orderly_checkout_commit
               | apply orderly_checkout_version | orderly_step].
Qed.

Lemma orderly_clone_and_checkout p dir lg :
  orderly (clone_and_checkout env p dir lg).
Proof.
  unfold clone_and_checkout.
  repeat first [apply orderly_checkout_stage | orderly_step].
Qed.

Lemma orderly_install_and_test p dir lg :
  orderly (install_and_test env p dir lg).
Proof. unfold install_and_test. repeat orderly_step. Qed.

Lemma orderly_package_pipeline p lg : orderly (package_pipeline env p lg).
Proof.
  unfold package_pipeline.
  repeat first [apply orderly_clone_and_checkout
               | apply orderly_install_and_test | orderly_step].
Qed.

Lemma orderly_release_log lg path : orderly (release_log lg path).
Proof. unfold release_log. repeat orderly_step. Qed.

Lemma orderly_clone_and_test_package p :
  orderly (clone_and_test_package env p).
Proof.
  unfold clone_and_test_package.
  repeat first [apply orderly_package_pipeline
               | apply orderly_release_log | orderly_step].
Qed.

(** A worker that fails does so with an unplanned error. *)
Lemma worker_raises_unexpected p e :
  worker env p = Exn e -> exists what, e = Unexpected what.
Proof. apply (orderly_clone_and_test_package p []). Qed.

End Orderly.

(** ** The clone URL *)

(** C10: hosting-domain validation accepts a URL exactly when it is not
    [None] and has ["github.com"] somewhere in it, whatever stands before
    or after; scheme and host are not looked at, so a URL that has
    ["github.com"] only in its query passes and is selected as the clone
    URL. *)
Theorem is_valid_github_url_substring :
  (forall url : option string,
     is_valid_github_url url = true <->
     exists u pre post, url = Some u /\ u = pre +:+ "github.com" +:+ post)
  /\
  (let u := "ftp://example.org/mirror?of=github.com/org/repo" in
   let p := mkPluginPackage "plugin" None None (Some u) None None None None []
   in is_valid_github_url (Some u) = true /\ get_git_url p = Some u).
Proof.
  split.
  - intros [u|]; simpl.
    + rewrite str_in_spec. split.
      * intros (pre & post & ->). eauto.
      * intros (u' & pre & post & [= <-] & ->). eauto.
    + split; [discriminate | intros (u & _ & _ & [=] & _)].
  - split; reflexivity.
Qed.

Lemma is_valid_truthy (u : option string) :
  is_valid_github_url u = true -> truthy u = true.
Proof. destruct u as [[|c u]|]; [discriminate | reflexivity | discriminate]. Qed.

Lemma is_valid_not_None (u : option string) :
  is_valid_github_url u = true -> bool_decide (u = None) = false.
Proof. destruct u; [reflexivity | discriminate]. Qed.

(** [get_git_url] as a cascade over the three candidates. *)
Lemma get_git_url_cascade (p : PluginPackage) :
  get_git_url p
  = let c1 := with_git_suffix <$> github_url p in
    if is_valid_github_url c1 then c1
    else if is_valid_github_url (repository p) then repository p
    else if is_valid_github_url (homepage p) then homepage p
    else None.
Proof.
  unfold get_git_url. cbv zeta.
  assert (match github_url p with
          | Some (String _ _ as g) =>
              if negb (is_valid_github_url (Some (with_git_suffix g)))
              then None else Some (with_git_suffix g)
          | _ => None
          end
          = if is_valid_github_url (with_git_suffix <$> github_url p)
            then with_git_suffix <$> github_url p else None) as ->.
  { destruct (github_url p) as [[|c g]|]; try reflexivity.
    cbn [fmap option_fmap option_map].
    now destruct (is_valid_github_url (Some (with_git_suffix (String c g)))). }
  destruct (is_valid_github_url (with_git_suffix <$> github_url p)) eqn:E1.
  - rewrite (is_valid_not_None _ E1). cbn [andb].
    rewrite (is_valid_not_None _ E1). reflexivity.
  - rewrite (bool_decide_eq_true_2 (@None string = None) eq_refl).
    cbn [andb].
    destruct (is_valid_github_url (repository p)) eqn:E2.
    + rewrite (is_valid_truthy _ E2). cbn [andb].
      rewrite (is_valid_not_None _ E2). reflexivity.
    + rewrite andb_false_r.
      rewrite (bool_decide_eq_true_2 (@None string = None) eq_refl).
      cbn [andb].
      destruct (is_valid_github_url (homepage p)) eqn:E3.
      * now rewrite (is_valid_truthy _ E3).
      * now rewrite andb_false_r.
Qed.

Lemma is_valid_suffixed_candidate (p : PluginPackage) :
  is_valid_github_url (with_git_suffix <$> github_url p)
  = is_valid_github_url (github_url p).
Proof.
  destruct (github_url p); [apply is_valid_with_git_suffix | reflexivity].
Qed.

(** No URL comes out exactly when no candidate validates. *)
Lemma get_git_url_none_iff (p : PluginPackage) :
  get_git_url p = None <->
  is_valid_github_url (github_url p) = false /\
  is_valid_github_url (repository p) = false /\
  is_valid_github_url (homepage p) = false.
Proof.
  rewrite get_git_url_cascade. cbv zeta.
  rewrite is_valid_suffixed_candidate.
  destruct (is_valid_github_url (github_url p)) eqn:E1.
  { split; [|intros [H _]; discriminate H].
    intros H. destruct (github_url p); [discriminate H | discriminate E1]. }
  destruct (is_valid_github_url (repository p)) eqn:E2.
  { split; [|intros (_ & H & _); discriminate H].
    intros H. rewrite H in E2. discriminate E2. }
  destruct (is_valid_github_url (homepage p)) eqn:E3.
  { split; [|intros (_ & _ & H); discriminate H].
    intros H. rewrite H in E3. discriminate E3. }
  tauto.
Qed.

(** C5: the clone URL is the first candidate that passes validation, in
    the order [github_url] (with its [.git] suffix), [repository],
    [homepage]; the suffix is added before validation and never changes
    its verdict; [https://github.com/org/repo] resolves to
    [https://github.com/org/repo.git]; no URL is returned exactly when no
    candidate validates. *)
Theorem get_git_url_first_valid (p : PluginPackage) :
  get_git_url p
  = default None (List.find is_valid_github_url (url_candidates p))
  /\ (forall g,
        endswith (with_git_suffix g) ".git" = true /\
        is_valid_github_url (Some (with_git_suffix g))
        = is_valid_github_url (Some g))
  /\ get_git_url (mkPluginPackage "p" None None None None None
                    (Some "https://github.com/org/repo") None [])
     = Some "https://github.com/org/repo.git"
  /\ (get_git_url p = None <->
      is_valid_github_url (github_url p) = false /\
      is_valid_github_url (repository p) = false /\
      is_valid_github_url (homepage p) = false).
Proof.
  split; [|split; [|split]].
  - rewrite get_git_url_cascade. unfold url_candidates.
    cbn [List.find]. cbv zeta.
    repeat match goal with
           | |- context [if is_valid_github_url ?u then _ else _] =>
               destruct (is_valid_github_url u)
           end; reflexivity.
  - intros g. split;
      [apply with_git_suffix_endswith | apply is_valid_with_git_suffix].
  - reflexivity.
  - apply get_git_url_none_iff.
Qed.

(** ** The partitioner *)

(** C3: for [1 <= node_index <= node_total], [split_packages] works with
    the chunk size [ceil(len / node_total)] and the start
    [(node_index - 1) * chunk_size]; a node that is not the last gets the
    elements [start .. start + chunk_size), the last node everything from
    [start] on; the slices of the indices [1 .. node_total], put one after
    the other, are the input list: nothing is left out and nothing comes
    twice. *)
Theorem split_packages_partition {A} (packages : list A)
    (node_total node_index : Z) :
  1 <= node_index <= node_total ->
  exists chunk_size : Z,
    node_total * (chunk_size - 1) < Z.of_nat (length packages)
      <= node_total * chunk_size
    /\ (let start := Z.to_nat ((node_index - 1) * chunk_size) in
        split_packages packages node_total node_index
        = Val (if node_index =? node_total
               then drop start packages
               else take (Z.to_nat chunk_size) (drop start packages)))
    /\ exists slices : list (list A),
         Forall2 (fun i s => split_packages packages node_total i = Val s)
           (map Z.of_nat (seq 1 (Z.to_nat node_total))) slices
         /\ concat slices = packages.
Proof.
  intros Hi.
  set (chunk := (Z.of_nat (length packages) + node_total - 1) / node_total).
  assert (0 <= chunk) as Hc by (apply Z.div_pos; lia).
  exists chunk. split; [apply ceil_bounds; lia|].
  split; [now apply split_packages_in_range|].
  set (c := Z.to_nat chunk).
  set (n := Z.to_nat node_total).
  assert (exists m, n = S m) as [m Hn] by (exists (Nat.pred n); lia).
  exists (map (fun i => take c (drop (i * c) packages)) (seq 0 m)
          ++ [drop (m * c) packages]).
  split.
  - rewrite Hn, seq_S, map_app. apply Forall2_app.
    + rewrite <- seq_shift, !map_map. apply Forall2_fmap.
      apply Forall_Forall2_diag, Forall_forall. intros i Hin.
      apply elem_of_seq in Hin.
      rewrite split_packages_in_range by lia. fold chunk.
      destruct (Z.eqb_spec (Z.of_nat (S i)) node_total) as [?|_]; [lia|].
      do 3 f_equal. fold c.
      replace (Z.of_nat (S i) - 1) with (Z.of_nat i) by lia.
      rewrite Z2Nat.inj_mul, Nat2Z.id by lia. reflexivity.
    + repeat constructor.
      rewrite split_packages_in_range by lia. fold chunk.
      destruct (Z.eqb_spec (Z.of_nat (1 + m)) node_total) as [_|?]; [|lia].
      do 2 f_equal.
      replace (Z.of_nat (1 + m) - 1) with (Z.of_nat m) by lia.
      rewrite Z2Nat.inj_mul, Nat2Z.id by lia. reflexivity.
  - rewrite concat_app, concat_chunks. simpl. rewrite app_nil_r.
    apply take_drop.
Qed.

Lemma split_packages_partition_witness :
  1 <= 2 <= 2 /\
  exists chunk_size : Z,
    2 * (chunk_size - 1) < Z.of_nat (length ["a"; "b"; "c"; "d"; "e"])
      <= 2 * chunk_size
    /\ (let start := Z.to_nat ((2 - 1) * chunk_size) in
        split_packages ["a"; "b"; "c"; "d"; "e"] 2 2
        = Val (if 2 =? 2
               then drop start ["a"; "b"; "c"; "d"; "e"]
               else take (Z.to_nat chunk_size)
                      (drop start ["a"; "b"; "c"; "d"; "e"])))
    /\ exists slices : list (list string),
         Forall2 (fun i s =>
                    split_packages ["a"; "b"; "c"; "d"; "e"] 2 i = Val s)
           (map Z.of_nat (seq 1 (Z.to_nat 2))) slices
         /\ concat slices = ["a"; "b"; "c"; "d"; "e"].
Proof.
  split; [lia|].
  apply (split_packages_partition ["a"; "b"; "c"; "d"; "e"] 2 2). lia.
Defined.

(** ** The checkout stage *)

Section Checkout.

Variable env : Env.
Variables (p : PluginPackage) (dir lg : string).

Lemma clone_and_checkout_cases t :
  clone_and_checkout env p dir lg t
  = match run_command_oracle env t (clone_command p dir) CwdNone with
    | Returns true =>
        checkout_stage env p dir lg (t ++ [clone_event p dir (Returns true)])
    | Returns false =>
        (Val false,
         t ++ [clone_event p dir (Returns false);
               Logged lg ERROR
                 ("Failed to clone repository for '" +:+ name p +:+ "'.")])
    | Raises what =>
        (Exn (Unexpected what), t ++ [clone_event p dir (Raises what)])
    end.
Proof.
  unfold clone_and_checkout, checkout_stage, clone_event.
  unfold bind at 1. unfold run_command.
  destruct (run_command_oracle env t (clone_command p dir) CwdNone)
    as [[|]|what]; cbn [negb]; try reflexivity.
  unfold bind, log, emit, ret. simpl. now rewrite <- app_assoc.
Qed.

Lemma checkout_commit_absent t :
  truthy (commit_hash p) = false ->
  checkout_commit env p dir lg t = (Val false, t).
Proof. unfold checkout_commit. now intros ->. Qed.

Lemma checkout_stage_without_commit t :
  truthy (commit_hash p) = false ->
  checkout_stage env p dir lg t = checkout_version env p dir lg false t.
Proof.
  intros Hc. unfold checkout_stage.
  now rewrite (bind_val _ _ _ _ _ (checkout_commit_absent t Hc)).
Qed.



End Checkout.


Section CheckoutOrder.

Variable env : Env.
Variables (p : PluginPackage) (dir lg : string).

Lemma bind_trace_prefix {A B} (m : M A) (k : A -> M B) t evs :
  (m t).2 = t ++ evs -> (forall a, orderly (k a)) ->
  exists evs', (bind m k t).2 = t ++ evs ++ evs'.
Proof.
  intros Hm Hk. unfold bind.
  destruct (m t) as [[a|e] t1]; simpl in Hm; subst t1.
  - destruct (Hk a (t ++ evs)) as [[evs' Hevs'] _].
    exists evs'. now rewrite Hevs', app_assoc.
  - exists []. simpl. now rewrite app_nil_r.
Qed.

(** With a commit hash, the pinned commit fails to check out exactly when
    its fetch, or after it its checkout, reports failure. *)
Lemma checkout_commit_fails_iff t t2 :
  truthy (commit_hash p) = true ->
  checkout_commit env p dir lg t = (Val false, t2) <->
  let fetch := Ran (commit_fetch_command p) (Cwd dir) in
  let checkout := Ran (commit_checkout_command p) (Cwd dir) in
  let failed :=
    Logged lg ERROR
      ("Failed to check out commit '" +:+ fmt (commit_hash p)
       +:+ "' for '" +:+ name p +:+ "'.") in
  (run_command_oracle env t (commit_fetch_command p) (Cwd dir)
     = Returns false
   /\ t2 = t ++ [fetch (Returns false); failed])
  \/ (run_command_oracle env t (commit_fetch_command p) (Cwd dir)
        = Returns true
      /\ run_command_oracle env (t ++ [fetch (Returns true)])
           (commit_checkout_command p) (Cwd dir) = Returns false
      /\ t2 = t ++ [fetch (Returns true); checkout (Returns false);
                    failed]).
Proof.
  intros Hc. unfold checkout_commit. rewrite Hc. cbv zeta.
  unfold bind, run_command, log, emit, ret. cbn [levelno Z.leb Z.compare].
  destruct (run_command_oracle env t (commit_fetch_command p) (Cwd dir))
    as [[|]|what].
  - destruct (run_command_oracle env _ (commit_checkout_command p) (Cwd dir))
      as [[|]|what]; simpl; rewrite <- ?app_assoc; simpl.
    + split; [discriminate | intros [[[=] _]|(_ & [=] & _)]].
    + split.
      * intros [= <-]. right. auto.
      * intros [[[=] _]|(_ & _ & ->)]. reflexivity.
    + split; [discriminate | intros [[[=] _]|(_ & [=] & _)]].
  - simpl. rewrite <- ?app_assoc. simpl. split.
    + intros [= <-]. left. auto.
    + intros [[_ ->]|([=] & _)]. reflexivity.
  - simpl. split; [discriminate | intros [[[=] _]|([=] & _)]].
Qed.

(** What makes a version usable for the tag fallback. *)
Lemma version_tag_usable v :
  version p = Some v -> str_in ".dev" v = false -> v <> "" ->
  version_tag_of p = Some v /\ truthy (version_tag_of p) = true.
Proof.
  intros Hv Hdev Hne. unfold version_tag_of. rewrite Hv, Hdev. simpl.
  split; [reflexivity|]. destruct v; [contradiction | reflexivity].
Qed.

(** [checkout_tag], by the answer of the command runner. *)
Lemma checkout_tag_cases repo tag t :
  checkout_tag env repo tag lg t
  = match run_command_oracle env t (tag_checkout_command tag) (Cwd repo) with
    | Returns true =>
        (Val true,
         t ++ [Ran (tag_checkout_command tag) (Cwd repo) (Returns true)])
    | Returns false =>
        (Val false,
         t ++ [Ran (tag_checkout_command tag) (Cwd repo) (Returns false);
               tag_failed lg tag])
    | Raises what =>
        (Exn (Unexpected what),
         t ++ [Ran (tag_checkout_command tag) (Cwd repo) (Raises what)])
    end.
Proof.
  unfold checkout_tag, bind at 1. unfold run_command.
  destruct (run_command_oracle env t (tag_checkout_command tag) (Cwd repo))
    as [[|]|what]; try reflexivity.
  rewrite (bind_val _ _ _ _ _ (log_emits _ ERROR _ _ ltac:(discriminate))).
  unfold ret, tag_failed. now rewrite <- app_assoc.
Qed.

(** The pinned commit, by the answers of the command runner. *)
Lemma checkout_commit_cases t :
  truthy (commit_hash p) = true ->
  let fetch := Ran (commit_fetch_command p) (Cwd dir) in
  let checkout := Ran (commit_checkout_command p) (Cwd dir) in
  let failed :=
    Logged lg ERROR
      ("Failed to check out commit '" +:+ fmt (commit_hash p)
       +:+ "' for '" +:+ name p +:+ "'.") in
  checkout_commit env p dir lg t
  = match run_command_oracle env t (commit_fetch_command p) (Cwd dir) with
    | Returns true =>
        match run_command_oracle env (t ++ [fetch (Returns true)])
                (commit_checkout_command p) (Cwd dir) with
        | Returns true =>
            (Val true,
             t ++ [fetch (Returns true); checkout (Returns true);
                   Logged lg INFO
                     ("Checked out commit '" +:+ fmt (commit_hash p)
                      +:+ "' successfully for '" +:+ name p +:+ "'.")])
        | Returns false =>
            (Val false,
             t ++ [fetch (Returns true); checkout (Returns false); failed])
        | Raises what =>
            (Exn (Unexpected what),
             t ++ [fetch (Returns true); checkout (Raises what)])
        end
    | Returns false => (Val false, t ++ [fetch (Returns false); failed])
    | Raises what => (Exn (Unexpected what), t ++ [fetch (Raises what)])
    end.
Proof.
  intros Hc. unfold checkout_commit. rewrite Hc. cbv zeta.
  unfold bind, run_command, log, emit, ret. cbn [levelno Z.leb Z.compare].
  destruct (run_command_oracle env t (commit_fetch_command p) (Cwd dir))
    as [[|]|what]; simpl; rewrite <- ?app_assoc; try reflexivity.
  destruct (run_command_oracle env _ (commit_checkout_command p) (Cwd dir))
    as [[|]|what]; simpl; rewrite <- ?app_assoc; reflexivity.
Qed.

(** The tag fallback for a usable version other than the placeholder, by
    the answers of the command runner. *)
Lemma checkout_version_usable t v ok :
  negb (truthy (commit_hash p)) || negb ok = true ->
  version p = Some v -> str_in ".dev" v = false ->
  v <> "" -> v <> "0.0.0" ->
  let fetch := Ran fetch_tags_command (Cwd dir) in
  let t1 := t ++ [fetch (Returns true)] in
  let prefixed := tag_checkout_command (tag_with_v v) in
  let bare := tag_checkout_command v in
  checkout_version env p dir lg ok t
  = match run_command_oracle env t fetch_tags_command (Cwd dir) with
    | Returns true =>
        match run_command_oracle env t1 prefixed (Cwd dir) with
        | Returns true =>
            (Val true, t1 ++ [Ran prefixed (Cwd dir) (Returns true)])
        | Returns false =>
            let t2 := t1 ++ [Ran prefixed (Cwd dir) (Returns false);
                             tag_failed lg (tag_with_v v)] in
            match run_command_oracle env t2 bare (Cwd dir) with
            | Returns true =>
                (Val true, t2 ++ [Ran bare (Cwd dir) (Returns true)])
            | Returns false =>
                (Val ok, t2 ++ [Ran bare (Cwd dir) (Returns false);
                                tag_failed lg v])
            | Raises what =>
                (Exn (Unexpected what),
                 t2 ++ [Ran bare (Cwd dir) (Raises what)])
            end
        | Raises what =>
            (Exn (Unexpected what),
             t1 ++ [Ran prefixed (Cwd dir) (Raises what)])
        end
    | Returns false => (Val ok, t ++ [fetch (Returns false)])
    | Raises what => (Exn (Unexpected what), t ++ [fetch (Raises what)])
    end.
Proof.
  intros Hgo Hv Hdev Hne Hplaceholder fetch t1 prefixed bare.
  destruct (version_tag_usable v Hv Hdev Hne) as [Htag Husable].
  unfold checkout_version. rewrite Hgo, Husable, Htag. cbn [fmt].
  unfold bind at 1. unfold run_command at 1.
  destruct (run_command_oracle env t fetch_tags_command (Cwd dir))
    as [[|]|what]; try reflexivity.
  fold fetch. fold t1.
  assert (("v" +:+ v =? "v0.0.0")%string = false) as ->.
  { apply String.eqb_neq. intros [= ?]. contradiction. }
  assert ((v =? "0.0.0")%string = false) as ->
    by now apply String.eqb_neq.
  cbn [negb]. fold (tag_with_v v).
  unfold bind at 1. rewrite checkout_tag_cases. fold prefixed.
  destruct (run_command_oracle env t1 prefixed (Cwd dir)) as [[|]|what];
    try reflexivity.
  unfold bind at 1. rewrite checkout_tag_cases. fold bare.
  destruct (run_command_oracle env _ bare (Cwd dir)) as [[|]|what];
    reflexivity.
Qed.

(** The tag fallback for the placeholder version: the tags are fetched
    and none is checked out. *)
Lemma checkout_version_placeholder t ok :
  negb (truthy (commit_hash p)) || negb ok = true ->
  version p = Some "0.0.0" ->
  let fetched := run_command_oracle env t fetch_tags_command (Cwd dir) in
  checkout_version env p dir lg ok t
  = (match fetched with
     | Returns _ => Val ok
     | Raises what => Exn (Unexpected what)
     end,
     t ++ [Ran fetch_tags_command (Cwd dir) fetched]).
Proof.
  intros Hgo Hv fetched.
  unfold checkout_version, version_tag_of. rewrite Hgo, Hv.
  change (str_in ".dev" "0.0.0") with false.
  cbn [negb orb truthy fmt].
  unfold bind at 1. unfold run_command. subst fetched.
  destruct (run_command_oracle env _ fetch_tags_command (Cwd dir))
    as [[|]|what]; reflexivity.
Qed.

(** The fallback for a version that gives no tag: a warning, and
    success. *)
Lemma checkout_version_without_tag t ok :
  negb (truthy (commit_hash p)) || negb ok = true ->
  truthy (version_tag_of p) = false ->
  exists msg,
    checkout_version env p dir lg ok t
    = (Val true, t ++ [Logged lg WARNING msg]).
Proof.
  intros Hgo Hv. unfold checkout_version. rewrite Hgo, Hv.
  destruct (truthy (version p) && str_in ".dev" (fmt (version p)));
    eexists; reflexivity.
Qed.

End CheckoutOrder.

(** C4: for a descriptor with a commit hash, once the clone has succeeded
    the checkout stage starts with [git fetch origin <commit>] and, when
    that succeeds, goes on with [git checkout <commit>]: the commit is
    tried before anything that concerns tags. When the fetch or the
    checkout of the commit reports failure, the failure is logged and the
    stage does not stop there but goes on with the fallback by version.
    For a usable version the tags are fetched, then the tag [v<version>]
    is checked out and, if that fails, the tag [<version>], and the stage
    succeeds if one of the two checkouts does; for the placeholder
    version the tags are fetched and no tag is tried; for a version that
    gives no tag the stage ends with a warning. *)
Theorem commit_checkout_before_tag_fallback env p dir lg t c :
  commit_hash p = Some c -> c <> "" ->
  run_command_oracle env t (clone_command p dir) CwdNone = Returns true ->
  let t1 := t ++ [Ran (clone_command p dir) CwdNone (Returns true)] in
  let fetch_commit := Ran (strs ["git"; "fetch"; "origin"; c]) (Cwd dir) in
  let checkout_of_commit := Ran (strs ["git"; "checkout"; c]) (Cwd dir) in
  let fetch_tags :=
    Ran (strs ["git"; "fetch"; "origin"; "--tags"]) (Cwd dir) in
  let checkout_of_tag tag :=
    Ran (strs ["git"; "checkout"; tag; "-b"; tag +:+ "-branch"])
      (Cwd dir) in
  let commit_failed :=
    Logged lg ERROR
      ("Failed to check out commit '" +:+ c +:+ "' for '" +:+ name p
       +:+ "'.") in
  let tag_failed tag :=
    Logged lg ERROR ("Failed to fetch tag '" +:+ tag +:+ "'.") in
  let fetched :=
    run_command_oracle env t1 (strs ["git"; "fetch"; "origin"; c])
      (Cwd dir) in
  let checked :=
    run_command_oracle env (t1 ++ [fetch_commit (Returns true)])
      (strs ["git"; "checkout"; c]) (Cwd dir) in
  (exists rest,
     (clone_and_checkout env p dir lg t).2 = t1 ++ fetch_commit fetched :: rest
     /\ (fetched = Returns true ->
         exists rest', rest = checkout_of_commit checked :: rest'))
  /\ (forall t2,
        (fetched = Returns false
         /\ t2 = t1 ++ [fetch_commit (Returns false); commit_failed])
        \/ (fetched = Returns true /\ checked = Returns false
            /\ t2 = t1 ++ [fetch_commit (Returns true);
                           checkout_of_commit (Returns false);
                           commit_failed]) ->
        let tags_fetched :=
          run_command_oracle env t2
            (strs ["git"; "fetch"; "origin"; "--tags"]) (Cwd dir) in
        let t3 := t2 ++ [fetch_tags (Returns true)] in
        (forall v,
           version p = Some v -> v <> "" -> str_in ".dev" v = false ->
           v <> "0.0.0" ->
           let prefixed :=
             strs ["git"; "checkout"; "v" +:+ v; "-b";
                   ("v" +:+ v) +:+ "-branch"] in
           let bare := strs ["git"; "checkout"; v; "-b"; v +:+ "-branch"] in
           clone_and_checkout env p dir lg t
           = match tags_fetched with
             | Returns true =>
                 match run_command_oracle env t3 prefixed (Cwd dir) with
                 | Returns true =>
                     (Val true,
                      t3 ++ [checkout_of_tag ("v" +:+ v) (Returns true)])
                 | Returns false =>
                     let t4 :=
                       t3 ++ [checkout_of_tag ("v" +:+ v) (Returns false);
                              tag_failed ("v" +:+ v)] in
                     match run_command_oracle env t4 bare (Cwd dir) with
                     | Returns true =>
                         (Val true, t4 ++ [checkout_of_tag v (Returns true)])
                     | Returns false =>
                         (Val false,
                          t4 ++ [checkout_of_tag v (Returns false);
                                 tag_failed v])
                     | Raises what =>
                         (Exn (Unexpected what),
                          t4 ++ [checkout_of_tag v (Raises what)])
                     end
                 | Raises what =>
                     (Exn (Unexpected what),
                      t3 ++ [checkout_of_tag ("v" +:+ v) (Raises what)])
                 end
             | Returns false =>
                 (Val false, t2 ++ [fetch_tags (Returns false)])
             | Raises what =>
                 (Exn (Unexpected what), t2 ++ [fetch_tags (Raises what)])
             end)
        /\ (version p = Some "0.0.0" ->
            clone_and_checkout env p dir lg t
            = (match tags_fetched with
               | Returns _ => Val false
               | Raises what => Exn (Unexpected what)
               end,
               t2 ++ [fetch_tags tags_fetched]))
        /\ (truthy (version_tag_of p) = false ->
            exists msg,
              clone_and_checkout env p dir lg t
              = (Val true, t2 ++ [Logged lg WARNING msg]))).
Proof.
  intros Hc Hne Hclone t1 fetch_commit checkout_of_commit fetch_tags
    checkout_of_tag commit_failed tag_failed' fetched checked.
  assert (truthy (commit_hash p) = true) as Htruthy.
  { rewrite Hc. destruct c; [contradiction | reflexivity]. }
  assert (commit_fetch_command p = strs ["git"; "fetch"; "origin"; c])
    as Hfetch_cmd by (unfold commit_fetch_command; now rewrite Hc).
  assert (commit_checkout_command p = strs ["git"; "checkout"; c])
    as Hcheckout_cmd by (unfold commit_checkout_command; now rewrite Hc).
  pose proof (checkout_commit_cases env p dir lg t1 Htruthy) as Hcommit.
  cbv zeta in Hcommit. rewrite Hfetch_cmd, Hcheckout_cmd, Hc in Hcommit.
  cbn [fmt] in Hcommit.
  fold fetch_commit checkout_of_commit commit_failed in Hcommit.
  fold fetched in Hcommit. fold checked in Hcommit.
  rewrite clone_and_checkout_cases, Hclone.
  change (t ++ [clone_event p dir (Returns true)]) with t1.
  unfold checkout_stage. split.
  - assert (exists evs,
              (checkout_commit env p dir lg t1).2
              = t1 ++ fetch_commit fetched :: evs
              /\ (fetched = Returns true ->
                  exists evs', evs = checkout_of_commit checked :: evs'))
      as (evs & Hevs & Hnext).
    { rewrite Hcommit. destruct fetched as [[|]|what].
      - destruct checked as [[|]|what]; eexists; (split; [reflexivity|]);
          intros _; eexists; reflexivity.
      - eexists. split; [reflexivity | discriminate].
      - eexists. split; [reflexivity | discriminate]. }
    destruct (bind_trace_prefix _ (checkout_version env p dir lg) t1
                (fetch_commit fetched :: evs) Hevs
                (orderly_checkout_version env p dir lg)) as [evs' Hevs'].
    exists (evs ++ evs'). split; [exact Hevs'|].
    intros Hok. destruct (Hnext Hok) as [evs0 ->]. eexists. reflexivity.
  - intros t2 Hfailed.
    assert (checkout_commit env p dir lg t1 = (Val false, t2)) as Hfail.
    { rewrite Hcommit.
      destruct Hfailed as [[-> ->]|(-> & -> & ->)]; reflexivity. }
    rewrite (bind_val _ _ _ _ _ Hfail).
    assert (negb (truthy (commit_hash p)) || negb false = true) as Hgo
      by apply orb_true_r.
    split; [|split].
    + intros v Hv Hnonempty Hdev Hplaceholder.
      rewrite (checkout_version_usable env p dir lg t2 v false Hgo Hv Hdev
                 Hnonempty Hplaceholder).
      reflexivity.
    + intros Hv.
      rewrite (checkout_version_placeholder env p dir lg t2 false Hgo Hv).
      reflexivity.
    + intros Hv.
      apply (checkout_version_without_tag env p dir lg t2 false Hgo Hv).
Qed.

(** C6, as the code has it: with no commit hash and the placeholder
    version [0.0.0], after a successful clone the stage fetches the tags
    and checks out none; it then reports failure, or the fetch's error,
    and never success. *)
Theorem placeholder_version_checkout env p dir lg t :
  truthy (commit_hash p) = false ->
  version p = Some "0.0.0" ->
  run_command_oracle env t (clone_command p dir) CwdNone = Returns true ->
  let t1 := t ++ [Ran (clone_command p dir) CwdNone (Returns true)] in
  let fetched := run_command_oracle env t1 fetch_tags_command (Cwd dir) in
  clone_and_checkout env p dir lg t
  = (match fetched with
     | Returns _ => Val false
     | Raises what => Exn (Unexpected what)
     end,
     t1 ++ [Ran fetch_tags_command (Cwd dir) fetched]).
Proof.
  intros Hc Hv Hclone t1 fetched.
  rewrite clone_and_checkout_cases, Hclone.
  rewrite (checkout_stage_without_commit env p dir lg _ Hc).
  unfold checkout_version, version_tag_of. rewrite Hc, Hv.
  change (str_in ".dev" "0.0.0") with false.
  cbn [negb orb truthy fmt].
  unfold bind at 1. unfold run_command.
  subst fetched t1. unfold clone_event.
  destruct (run_command_oracle env _ fetch_tags_command (Cwd dir))
    as [[|]|what]; reflexivity.
Qed.

(** ** The dispatcher and the aggregator *)

Section Aggregation.

Variable env : Env.

Lemma classify_by_position pre results packages passed failed :
  length results = length packages ->
  classify (length pre) packages (pre ++ results) passed failed
  = Val (passed ++ names_where true packages results,
         failed ++ names_where false packages results).
Proof.
  revert pre results passed failed.
  induction packages as [|package packages IH];
    intros pre results passed failed Hlen.
  - destruct results; [|discriminate]. simpl. now rewrite !app_nil_r.
  - destruct results as [|r results]; [discriminate|].
    injection Hlen as Hlen. cbn [classify names_where].
    rewrite lookup_app_r, Nat.sub_diag by lia. cbn [lookup list_lookup].
    replace (pre ++ r :: results) with ((pre ++ [r]) ++ results)
      by now rewrite <- app_assoc.
    replace (S (length pre)) with (length (pre ++ [r]))
      by (rewrite length_app; simpl; lia).
    destruct (truthy_result r); rewrite IH by assumption;
      cbn [Bool.eqb]; now rewrite <- app_assoc.
Qed.

Lemma names_where_own_outcome want (g : PluginPackage -> option bool)
    packages :
  names_where want packages (map g packages)
  = map name
      (List.filter (fun p => Bool.eqb (truthy_result (g p)) want) packages).
Proof.
  induction packages as [|p packages IH]; [reflexivity|].
  simpl. destruct (Bool.eqb (truthy_result (g p)) want); simpl;
    now rewrite IH.
Qed.

(** When every worker returns, each package is classified by what its
    own pipeline gave. *)
Lemma run_tests_parallel_returns packages t :
  Forall (fun p => is_exn (worker env p) = false) packages ->
  run_tests_parallel env packages t
  = (Val (map name (List.filter (passes env) packages),
          map name (List.filter (fun p => negb (passes env p)) packages)),
     t ++ dispatch_events packages).
Proof.
  intros Hall. unfold run_tests_parallel, bind, emit, lift.
  rewrite (pool_map_returns _ _ (outcome_of env)).
  - rewrite (classify_by_position [] (map (outcome_of env) packages))
      by now rewrite length_map.
    rewrite !names_where_own_outcome, <- app_assoc. simpl.
    rewrite (List.filter_ext _ (passes env))
      by (intros p; unfold passes;
          now destruct (truthy_result (outcome_of env p))).
    rewrite (List.filter_ext
               (fun p => Bool.eqb (truthy_result (outcome_of env p)) false)
               (fun p => negb (passes env p)))
      by (intros p; unfold passes;
          now destruct (truthy_result (outcome_of env p))).
    reflexivity.
  - intros p Hp. rewrite Forall_forall in Hall. specialize (Hall p Hp).
    unfold outcome_of. now destruct (worker env p).
Qed.

(** When a worker raises, so does the dispatcher, and no classification
    is produced. *)
Lemma run_tests_parallel_raises packages t p :
  p ∈ packages -> is_exn (worker env p) = true ->
  exists what,
    run_tests_parallel env packages t
    = (Exn (Unexpected what), t ++ dispatch_events packages).
Proof.
  intros Hp He. destruct (worker env p) as [|e] eqn:Hw; [discriminate|].
  destruct (pool_map_raises (completion_picks env) (worker env)
              packages p e Hp Hw) as (e' & p' & _ & Hw' & Hmap).
  destruct (worker_raises_unexpected env p' e' Hw') as [what ->].
  exists what. unfold run_tests_parallel, bind, emit, lift.
  rewrite Hmap, <- app_assoc. reflexivity.
Qed.

Lemma output_package_logs_returns packages t :
  exists t', output_package_logs env packages t = (Val tt, t').
Proof.
  revert t. induction packages as [|p packages IH]; intros t.
  - now exists t.
  - cbn [output_package_logs]. unfold bind at 1.
    destruct (read_file env t _); unfold emit; apply IH.
Qed.

(** The exit status once the dispatcher has returned its two lists. *)
Lemma test_plugins_after_dispatch plugin_packages skip total index
    slice t passed failed t' :
  split_packages (candidates plugin_packages skip) total index
    = Val slice ->
  slice <> [] ->
  run_tests_parallel env slice t = (Val (passed, failed), t') ->
  exit_status (test_plugins env plugin_packages skip total index t).1
  = if is_nil failed then 0 else 1.
Proof.
  intros Hsplit Hne Hrun. unfold test_plugins.
  unfold bind at 1. unfold lift at 1. rewrite Hsplit.
  destruct slice as [|p slice]; [contradiction|]. cbn [is_nil].
  rewrite (bind_val _ _ _ _ _ Hrun).
  destruct (output_package_logs_returns (p :: slice) t') as [t'' Hlogs].
  rewrite (bind_val _ _ _ _ _ Hlogs).
  unfold bind, emit, raise.
  destruct (is_nil passed), (is_nil failed); reflexivity.
Qed.

Lemma test_plugins_nothing_to_test plugin_packages skip total index t :
  split_packages (candidates plugin_packages skip) total index = Val [] ->
  test_plugins env plugin_packages skip total index t
  = (Exn (SystemExit 0),
     t ++ [Printed "No plugins found to test based on the provided names."]).
Proof.
  intros Hsplit. unfold test_plugins.
  unfold bind at 1. unfold lift at 1. rewrite Hsplit. reflexivity.
Qed.

Lemma test_plugins_dispatch_raised plugin_packages skip total index
    slice t what t' :
  split_packages (candidates plugin_packages skip) total index
    = Val slice ->
  slice <> [] ->
  run_tests_parallel env slice t = (Exn (Unexpected what), t') ->
  test_plugins env plugin_packages skip total index t
  = (Exn (Unexpected what), t').
Proof.
  intros Hsplit Hne Hrun. unfold test_plugins.
  unfold bind at 1. unfold lift at 1. rewrite Hsplit.
  destruct slice as [|p slice]; [contradiction|]. cbn [is_nil].
  now rewrite (bind_exn _ _ _ _ _ Hrun).
Qed.

Lemma filter_negb_nil (l : list PluginPackage) :
  is_nil (map name (List.filter (fun p => negb (passes env p)) l))
  = forallb (passes env) l.
Proof.
  induction l as [|p l IH]; [reflexivity|].
  simpl. destruct (passes env p); simpl; [exact IH | reflexivity].
Qed.

(** The exit status of a run, from the outcomes of the packages of its
    slice. *)
Lemma test_plugins_exit_status plugin_packages skip total index slice t :
  split_packages (candidates plugin_packages skip) total index
    = Val slice ->
  exit_status (test_plugins env plugin_packages skip total index t).1
  = if forallb (passes env) slice then 0 else 1.
Proof.
  intros Hsplit. destruct slice as [|p0 slice0] eqn:Hslice.
  { now rewrite test_plugins_nothing_to_test. }
  rewrite <- Hslice in *. assert (slice <> []) as Hne by now subst.
  clear Hslice p0 slice0.
  destruct (decide (Forall (fun p => is_exn (worker env p) = false) slice))
    as [Hall|Hnot].
  - rewrite (test_plugins_after_dispatch _ _ _ _ _ _ _ _ _ Hsplit Hne
               (run_tests_parallel_returns slice t Hall)).
    now rewrite filter_negb_nil.
  - apply not_Forall_Exists in Hnot; [|intros ?; apply _].
    apply Exists_exists in Hnot as (p & Hp & He).
    apply not_false_iff_true in He.
    destruct (run_tests_parallel_raises slice t p Hp He) as [what Hrun].
    rewrite (test_plugins_dispatch_raised _ _ _ _ _ _ _ _ Hsplit Hne Hrun).
    replace (forallb (passes env) slice) with false; [reflexivity|].
    symmetry. apply not_true_iff_false. intros Hf.
    rewrite forallb_forall in Hf.
    apply list_elem_of_In in Hp. specialize (Hf p Hp).
    unfold passes, outcome_of in Hf.
    destruct (worker env p); [discriminate He | discriminate Hf].
Qed.

End Aggregation.

(** ** Errors at the package boundary *)

Section Boundary.

Variable env : Env.

(** [clone_and_test_package] frames its pipeline: set-up before, release
    after, and the pipeline's result, value or error, handed on as it
    is. *)
Lemma clone_and_test_package_frame p t :
  exists mid,
    (package_pipeline env p (name p) (t ++ setup_events p)).2
    = (t ++ setup_events p) ++ mid /\
    clone_and_test_package env p t
    = ((package_pipeline env p (name p) (t ++ setup_events p)).1,
       t ++ setup_events p ++ mid ++ release_events p).
Proof.
  destruct (orderly_package_pipeline env p (name p) (t ++ setup_events p))
    as [[mid Hmid] _].
  exists mid. split; [exact Hmid|].
  unfold clone_and_test_package, bind, emit, try_finally, release_log.
  cbn beta iota. rewrite <- !app_assoc. cbn [app].
  change (t ++ [Makedirs (log_dir_of p); RootHandlersCleared;
                FileHandlerOpened (log_file_path_of p);
                HandlerAdded (name p) (log_file_path_of p)])
    with (t ++ setup_events p).
  destruct (package_pipeline env p (name p) (t ++ setup_events p))
    as [r t5]. simpl in Hmid. subst t5.
  unfold bind, emit. cbn. unfold release_events.
  now rewrite <- !app_assoc.
Qed.

End Boundary.


Lemma passes_iff env p :
  passes env p = true <-> worker env p = Val (Some true).
Proof.
  unfold passes, outcome_of.
  destruct (worker env p) as [[[|]|]|e]; simpl; split; congruence.
Qed.









(** ** Exit status and classification *)

Lemma split_packages_defined {A} (l : list A) (total index : Z) :
  total <> 0 -> exists slice, split_packages l total index = Val slice.
Proof.
  intros Ht. unfold split_packages, floordiv.
  destruct (Z.eqb_spec total 0) as [?|_]; [contradiction|].
  destruct (index =? total); eauto.
Qed.

(** C8, the claim as stated fails: with a node total of 0 the partition
    cannot be computed; the run ends with exit status 1 although no
    package was tested and the only package there is would pass. *)
Lemma zero_node_total_exits_1_without_failure :
  Forall (fun p => worker all_succeed p = Val (Some true)) [healthy]
  /\ test_plugins all_succeed [("healthy", healthy)] None 0 1 []
     = (Exn ZeroDivisionError, [])
  /\ main all_succeed [("healthy", healthy)] None 0 1 = 1.
Proof.
  split; [|split; reflexivity].
  constructor; [vm_compute; reflexivity | constructor].
Qed.

(** C8, amended: for a node total other than 0 the slice of the node is
    defined, and the exit status is 0 exactly when every package of that
    slice passes, and 1 otherwise; once the dispatcher has returned its
    lists, a non-empty failed list gives 1 and an empty one 0; an empty
    slice exits with 0 at once, after one message and without any
    dispatch. *)
Theorem exit_status_reflects_failures env plugin_packages skip total index
    t :
  total <> 0 ->
  let status :=
    exit_status (test_plugins env plugin_packages skip total index t).1 in
  exists slice,
    split_packages (candidates plugin_packages skip) total index = Val slice
    /\ (status = 0
        <-> Forall (fun p => worker env p = Val (Some true)) slice)
    /\ (status = 0 \/ status = 1)
    /\ (forall passed failed t',
          slice <> [] ->
          run_tests_parallel env slice t = (Val (passed, failed), t') ->
          status = if is_nil failed then 0 else 1)
    /\ (slice = [] ->
        test_plugins env plugin_packages skip total index t
        = (Exn (SystemExit 0),
           t ++ [Printed
                   "No plugins found to test based on the provided names."])).
Proof.
  intros Ht status.
  destruct (split_packages_defined (candidates plugin_packages skip)
              total index Ht) as [slice Hsplit].
  exists slice. split; [exact Hsplit|].
  assert (status = if forallb (passes env) slice then 0 else 1) as Hstatus
    by now apply test_plugins_exit_status.
  split; [|split; [|split]].
  - rewrite Hstatus, Forall_forall. split.
    + intros H0 p Hp. apply passes_iff.
      destruct (forallb (passes env) slice) eqn:Hall; [|discriminate H0].
      rewrite forallb_forall in Hall. apply Hall.
      now apply list_elem_of_In.
    + intros Hall.
      replace (forallb (passes env) slice) with true; [reflexivity|].
      symmetry. apply forallb_forall. intros p Hp.
      apply passes_iff, Hall. now apply list_elem_of_In.
  - rewrite Hstatus. destruct (forallb (passes env) slice); auto.
  - intros passed failed t' Hne Hrun.
    exact (test_plugins_after_dispatch env _ _ _ _ _ _ _ _ _
             Hsplit Hne Hrun).
  - intros ->. now apply test_plugins_nothing_to_test.
Qed.

Lemma exit_status_reflects_failures_witness :
  1 <> 0
  /\ exit_status
       (test_plugins all_succeed
          [("healthy", healthy); ("placeholder", placeholder)] None 1 1 []).1
     = 1.
Proof.
  assert (1 <> 0) as Ht by lia.
  split; [exact Ht|].
  destruct (exit_status_reflects_failures all_succeed
              [("healthy", healthy); ("placeholder", placeholder)]
              None 1 1 [] Ht) as (slice & Hsplit & _ & _ & Hlists & _).
  assert (slice = [healthy; placeholder]) as ->
    by (vm_compute in Hsplit; now injection Hsplit as <-).
  apply (Hlists ["healthy"] ["placeholder"]
           [Makedirs "logs"; PoolMapped ["healthy"; "placeholder"]]).
  - discriminate.
  - vm_compute. reflexivity.
Defined.

(** C9, the claim as stated fails: the loop reads an outcome by its
    position in the result list; the outcomes carry no name, and handing
    the same outcomes over in another order changes the classification. *)
Lemma outcomes_are_matched_by_position :
  classify 0 [healthy; crashing] [Some true; None] [] []
    = Val (["healthy"], ["crashing"])
  /\ classify 0 [healthy; crashing] [None; Some true] [] []
    = Val (["crashing"], ["healthy"])
  /\ ~ (forall packages results results',
          results ≡ₚ results' ->
          classify 0 packages results [] []
          = classify 0 packages results' [] []).
Proof.
  split; [reflexivity|]. split; [reflexivity|].
  intros H.
  specialize (H [healthy; crashing] [Some true; None] [None; Some true]
                (perm_swap _ _ _)).
  discriminate H.
Qed.

(** C9, amended: the aggregator matches outcome and package by position,
    [results[i]] with [packages[i]]; the pool hands back the outcomes in
    input order whatever the order in which the workers finish; so, when
    every worker returns, a package is on the passed list exactly when its
    own pipeline returned [True], and on the failed list otherwise, both
    lists in input order. *)
Theorem classification_by_position_is_by_package env packages t :
  Forall (fun p => is_exn (worker env p) = false) packages ->
  (forall results,
     length results = length packages ->
     classify 0 packages results [] []
     = Val (names_where true packages results,
            names_where false packages results))
  /\ (forall picks,
        pool_map picks (worker env) packages
        = Val (map (outcome_of env) packages))
  /\ run_tests_parallel env packages t
     = (Val (map name (List.filter (passes env) packages),
             map name (List.filter (fun p => negb (passes env p)) packages)),
        t ++ dispatch_events packages).
Proof.
  intros Hall. split; [|split].
  - intros results Hlen.
    exact (classify_by_position [] results packages [] [] Hlen).
  - intros picks. apply pool_map_returns. intros p Hp.
    rewrite Forall_forall in Hall. specialize (Hall p Hp).
    unfold outcome_of. now destruct (worker env p).
  - now apply run_tests_parallel_returns.
Qed.

Lemma classification_by_position_is_by_package_witness :
  Forall (fun p => is_exn (worker all_succeed p) = false)
    [healthy; placeholder; pinned]
  /\ run_tests_parallel all_succeed [healthy; placeholder; pinned] []
     = (Val (map name
               (List.filter (passes all_succeed)
                  [healthy; placeholder; pinned]),
             map name
               (List.filter (fun p => negb (passes all_succeed p))
                  [healthy; placeholder; pinned])),
        [] ++ dispatch_events [healthy; placeholder; pinned]).
Proof.
  assert (Forall (fun p => is_exn (worker all_succeed p) = false)
            [healthy; placeholder; pinned]) as Hall
    by (repeat constructor).
  split; [exact Hall|].
  apply (classification_by_position_is_by_package all_succeed _ [] Hall).
Defined.

(** ** Witnesses of the checkout theorems *)

Lemma commit_checkout_before_tag_fallback_witness :
  commit_hash pinned = Some "abc123"
  /\ run_command_oracle commit_unavailable []
       (clone_command pinned "/tmp/plugin") CwdNone = Returns true
  /\ run_command_oracle commit_unavailable
       [Ran (clone_command pinned "/tmp/plugin") CwdNone (Returns true)]
       (strs ["git"; "fetch"; "origin"; "abc123"]) (Cwd "/tmp/plugin")
     = Returns false
  /\ clone_and_checkout commit_unavailable pinned "/tmp/plugin" "pinned" []
     = (Val true,
        [Ran (clone_command pinned "/tmp/plugin") CwdNone (Returns true);
         Ran (strs ["git"; "fetch"; "origin"; "abc123"]) (Cwd "/tmp/plugin")
           (Returns false);
         Logged "pinned" ERROR
           "Failed to check out commit 'abc123' for 'pinned'.";
         Ran (strs ["git"; "fetch"; "origin"; "--tags"]) (Cwd "/tmp/plugin")
           (Returns true);
         Ran (strs ["git"; "checkout"; "v1.2.3"; "-b"; "v1.2.3-branch"])
           (Cwd "/tmp/plugin") (Returns true)]).
Proof.
  do 3 (split; [reflexivity|]).
  destruct (commit_checkout_before_tag_fallback commit_unavailable pinned
              "/tmp/plugin" "pinned" [] "abc123" eq_refl
              ltac:(discriminate) eq_refl) as [_ Hfallback].
  destruct (Hfallback _ (or_introl (conj eq_refl eq_refl))) as [Htags _].
  exact (Htags "1.2.3" eq_refl ltac:(discriminate) eq_refl
           ltac:(discriminate)).
Defined.

Lemma placeholder_version_checkout_witness :
  truthy (commit_hash placeholder) = false
  /\ version placeholder = Some "0.0.0"
  /\ run_command_oracle all_succeed []
       (clone_command placeholder "/tmp/plugin") CwdNone = Returns true
  /\ clone_and_checkout all_succeed placeholder "/tmp/plugin" "placeholder" []
     = (Val false,
        [Ran (clone_command placeholder "/tmp/plugin") CwdNone (Returns true);
         Ran fetch_tags_command (Cwd "/tmp/plugin") (Returns true)]).
Proof.
  do 3 (split; [reflexivity|]).
  apply (placeholder_version_checkout all_succeed placeholder
           "/tmp/plugin" "placeholder" [] eq_refl eq_refl eq_refl).
Defined.


(** The version [v0.0.0] is not taken for the placeholder: its tags
    [vv0.0.0] and [v0.0.0] are both tried. *)
Example placeholder_with_prefix_tries_tags :
  clone_and_checkout checkouts_fail placeholder_v "/tmp/plugin"
    "placeholder" []
  = (Val false,
     [Ran (clone_command placeholder_v "/tmp/plugin") CwdNone (Returns true);
      Ran fetch_tags_command (Cwd "/tmp/plugin") (Returns true);
      Ran (tag_checkout_command "vv0.0.0") (Cwd "/tmp/plugin")
        (Returns false);
      Logged "placeholder" ERROR "Failed to fetch tag 'vv0.0.0'.";
      Ran (tag_checkout_command "v0.0.0") (Cwd "/tmp/plugin")
        (Returns false);
      Logged "placeholder" ERROR "Failed to fetch tag 'v0.0.0'."]).
Proof. reflexivity. Qed.

(** * Further properties of [cli.py] *)

(** ** The clone URL, continued *)

(** X1: [get_git_url] never hands out a URL that fails its own validation:
    it returns [None] or a URL that has ["github.com"] in it. *)
Theorem get_git_url_validates (p : PluginPackage) :
  get_git_url p = None \/ is_valid_github_url (get_git_url p) = true.
Proof.
  rewrite get_git_url_cascade. cbv zeta.
  destruct (is_valid_github_url (with_git_suffix <$> github_url p)) eqn:E1;
    [now right|].
  destruct (is_valid_github_url (repository p)) eqn:E2; [now right|].
  destruct (is_valid_github_url (homepage p)) eqn:E3; [now right | now left].
Qed.

(** X2: the [.git] suffix is only ever added to [github_url]. When that
    field does not validate, the URL that comes out is the [repository] or
    the [homepage] field exactly as it stands, with or without the suffix
    the docstring promises. *)
Theorem get_git_url_fallbacks_verbatim (p : PluginPackage) (u : string) :
  is_valid_github_url (github_url p) = false ->
  get_git_url p = Some u ->
  (repository p = Some u /\ is_valid_github_url (repository p) = true)
  \/ (homepage p = Some u /\ is_valid_github_url (repository p) = false).
Proof.
  intros Hg. rewrite get_git_url_cascade. cbv zeta.
  rewrite is_valid_suffixed_candidate, Hg.
  destruct (is_valid_github_url (repository p)) eqn:E2; [now left|].
  destruct (is_valid_github_url (homepage p)) eqn:E3;
    [now right | discriminate].
Qed.

Lemma get_git_url_fallbacks_verbatim_witness :
  let p := mkPluginPackage "plugin" None None None None
             (Some "https://github.com/org/repo") None None [] in
  is_valid_github_url (github_url p) = false
  /\ get_git_url p = Some "https://github.com/org/repo"
  /\ endswith "https://github.com/org/repo" ".git" = false
  /\ ((repository p = Some "https://github.com/org/repo"
       /\ is_valid_github_url (repository p) = true)
      \/ (homepage p = Some "https://github.com/org/repo"
          /\ is_valid_github_url (repository p) = false)).
Proof.
  cbv zeta. do 3 (split; [reflexivity|]).
  apply get_git_url_fallbacks_verbatim; reflexivity.
Defined.

(** ** The partitioner, continued *)

(** X3: no node gets more than the chunk size: for an index in range the
    slice has at most [ceil(len / node_total)] packages, the last node
    included, and it is a run of consecutive packages of the input. *)
Theorem split_packages_load_bound {A} (packages : list A)
    (node_total node_index : Z) (s : list A) :
  1 <= node_index <= node_total ->
  split_packages packages node_total node_index = Val s ->
  Z.of_nat (length s)
    <= (Z.of_nat (length packages) + node_total - 1) / node_total
  /\ exists before after, packages = before ++ s ++ after.
Proof.
  intros Hi. rewrite split_packages_in_range by assumption.
  set (chunk := (Z.of_nat (length packages) + node_total - 1) / node_total).
  pose proof (ceil_bounds (Z.of_nat (length packages)) node_total
                ltac:(lia) ltac:(lia)) as Hceil.
  fold chunk in Hceil. cbv zeta in Hceil.
  assert (0 <= chunk) as Hc by (apply Z.div_pos; lia).
  set (start := Z.to_nat ((node_index - 1) * chunk)).
  intros [= <-]. split.
  - destruct (Z.eqb_spec node_index node_total) as [->|Hne].
    + rewrite length_drop. subst start. nia.
    + rewrite length_take. lia.
  - destruct (node_index =? node_total).
    + exists (take start packages), []. now rewrite app_nil_r, take_drop.
    + exists (take start packages),
        (drop (Z.to_nat chunk) (drop start packages)).
      now rewrite take_drop, take_drop.
Qed.

Lemma split_packages_load_bound_witness :
  1 <= 2 <= 2
  /\ split_packages ["a"; "b"; "c"; "d"; "e"] 2 2 = Val ["d"; "e"]
  /\ Z.of_nat (length ["d"; "e"])
       <= (Z.of_nat (length ["a"; "b"; "c"; "d"; "e"]) + 2 - 1) / 2.
Proof.
  split; [lia|]. split; [reflexivity|].
  apply (split_packages_load_bound ["a"; "b"; "c"; "d"; "e"] 2 2 ["d"; "e"]);
    [lia | reflexivity].
Defined.

(** X4: a node index outside [1 .. node_total] is not refused. Index 0 and
    every index beyond the total get the empty slice, and [test_plugins]
    then reports that there is nothing to test and exits with status 0,
    without dispatching anything. *)
Theorem node_index_out_of_range_tests_nothing env plugin_packages skip
    (node_total node_index : Z) t :
  1 <= node_total ->
  node_index = 0 \/ node_total < node_index ->
  split_packages (candidates plugin_packages skip) node_total node_index
    = Val []
  /\ test_plugins env plugin_packages skip node_total node_index t
     = (Exn (SystemExit 0),
        t ++ [Printed "No plugins found to test based on the provided names."]).
Proof.
  intros Ht Hi.
  assert (split_packages (candidates plugin_packages skip)
            node_total node_index = Val []) as Hsplit.
  { set (l := candidates plugin_packages skip).
    unfold split_packages, floordiv.
    destruct (Z.eqb_spec node_total 0) as [?|_]; [lia|].
    set (chunk := (Z.of_nat (length l) + node_total - 1) / node_total).
    pose proof (ceil_bounds (Z.of_nat (length l)) node_total
                  ltac:(lia) ltac:(lia)) as Hceil.
    fold chunk in Hceil. cbv zeta in Hceil.
    assert (0 <= chunk) as Hc by (apply Z.div_pos; lia).
    destruct (Z.eqb_spec node_index node_total) as [?|_]; [lia|].
    f_equal. destruct Hi as [-> | Hi].
    - unfold slice. replace ((0 - 1) * chunk + chunk) with 0 by lia.
      assert (clamp (Z.of_nat (length l)) 0 = 0) as ->
        by (unfold clamp; change (0 <? 0) with false; cbv iota; lia).
      assert (0 <= clamp (Z.of_nat (length l)) ((0 - 1) * chunk)) as Hlo
        by (unfold clamp; destruct (Z.ltb_spec ((0 - 1) * chunk) 0); lia).
      replace (Z.to_nat (0 - clamp (Z.of_nat (length l)) ((0 - 1) * chunk)))
        with 0%nat by lia.
      reflexivity.
    - rewrite slice_range by nia. rewrite drop_ge by nia. apply take_nil. }
  split; [exact Hsplit|]. now apply test_plugins_nothing_to_test.
Qed.

Lemma node_index_out_of_range_tests_nothing_witness :
  1 <= 2
  /\ (3 = 0 \/ 2 < 3)
  /\ test_plugins all_succeed [("healthy", healthy); ("pinned", pinned)]
       None 2 3 []
     = (Exn (SystemExit 0),
        [] ++ [Printed
                 "No plugins found to test based on the provided names."]).
Proof.
  split; [lia|]. split; [right; lia|].
  apply (node_index_out_of_range_tests_nothing all_succeed
           [("healthy", healthy); ("pinned", pinned)] None 2 3 []);
    [lia | right; lia].
Defined.

(** X5: a node total of 0 is not refused either: the chunk size cannot be
    computed, [test_plugins] ends in a [ZeroDivisionError] before it tests
    or prints anything, and the process exits with status 1. *)
Theorem node_total_zero_crashes env plugin_packages skip (node_index : Z) t :
  test_plugins env plugin_packages skip 0 node_index t
  = (Exn ZeroDivisionError, t)
  /\ main env plugin_packages skip 0 node_index = 1.
Proof. split; reflexivity. Qed.


(** ** The checkout stage, continued *)

Section CheckoutMore.

Variable env : Env.
Variables (p : PluginPackage) (dir lg : string).

(** X6: a pinned commit that can be fetched and checked out settles the
    checkout stage: it succeeds at once, and no command about tags is
    run, whatever the version says. *)
Theorem pinned_commit_settles_checkout t :
  truthy (commit_hash p) = true ->
  let t1 := t ++ [clone_event p dir (Returns true)] in
  let t2 := t1 ++ [Ran (commit_fetch_command p) (Cwd dir) (Returns true)] in
  run_command_oracle env t (clone_command p dir) CwdNone = Returns true ->
  run_command_oracle env t1 (commit_fetch_command p) (Cwd dir)
    = Returns true ->
  run_command_oracle env t2 (commit_checkout_command p) (Cwd dir)
    = Returns true ->
  clone_and_checkout env p dir lg t
  = (Val true,
     t2 ++ [Ran (commit_checkout_command p) (Cwd dir) (Returns true);
            Logged lg INFO
              ("Checked out commit '" +:+ fmt (commit_hash p)
               +:+ "' successfully for '" +:+ name p +:+ "'.")]).
Proof.
  intros Hc t1 t2 Hclone Hfetch Hcheckout.
  rewrite clone_and_checkout_cases, Hclone. fold t1.
  assert (checkout_commit env p dir lg t1
          = (Val true,
             t2 ++ [Ran (commit_checkout_command p) (Cwd dir) (Returns true);
                    Logged lg INFO
                      ("Checked out commit '" +:+ fmt (commit_hash p)
                       +:+ "' successfully for '" +:+ name p +:+ "'.")]))
    as Hcommit.
  { unfold checkout_commit. rewrite Hc.
    rewrite (bind_val _ _ _ _ _ (run_command_returns env _ _ _ _ Hfetch)).
    fold t2.
    rewrite (bind_val _ _ _ _ _ (run_command_returns env _ _ _ _ Hcheckout)).
    rewrite (bind_val _ _ _ _ _
               (log_emits _ INFO _ _ ltac:(discriminate))).
    unfold ret. now rewrite <- app_assoc. }
  unfold checkout_stage. rewrite (bind_val _ _ _ _ _ Hcommit).
  unfold checkout_version. rewrite Hc. reflexivity.
Qed.

(** X7: when the pinned commit cannot be checked out and the version is
    of no use for a tag (missing, empty, or a [.dev] version), the stage
    still reports success, with a warning as its only trace: the package
    goes on to be tested on the branch the clone left it on. *)
Theorem failed_commit_is_masked_without_version t t2 :
  truthy (commit_hash p) = true ->
  run_command_oracle env t (clone_command p dir) CwdNone = Returns true ->
  checkout_commit env p dir lg (t ++ [clone_event p dir (Returns true)])
    = (Val false, t2) ->
  truthy (version_tag_of p) = false ->
  exists msg,
    clone_and_checkout env p dir lg t
    = (Val true, t2 ++ [Logged lg WARNING msg]).
Proof.
  intros Hc Hclone Hfail Hv.
  rewrite clone_and_checkout_cases, Hclone. unfold checkout_stage.
  rewrite (bind_val _ _ _ _ _ Hfail).
  unfold checkout_version. rewrite Hc, Hv. cbn [negb orb].
  destruct (truthy (version p) && str_in ".dev" (fmt (version p)));
    eexists; reflexivity.
Qed.

(** X8: the tag fallback, once the tags are fetched, tries the tag
    [v<version>] first; if that checkout succeeds the stage succeeds and
    the bare tag is not tried; otherwise the bare tag [<version>] is
    tried and its verdict is the verdict of the stage. *)
Theorem tag_fallback_tries_prefixed_tag_first t v ok :
  negb (truthy (commit_hash p)) || negb ok = true ->
  version p = Some v -> str_in ".dev" v = false ->
  v <> "" -> v <> "0.0.0" ->
  run_command_oracle env t fetch_tags_command (Cwd dir) = Returns true ->
  let t1 := t ++ [Ran fetch_tags_command (Cwd dir) (Returns true)] in
  let prefixed := tag_checkout_command (tag_with_v v) in
  let bare := tag_checkout_command v in
  checkout_version env p dir lg ok t
  = match run_command_oracle env t1 prefixed (Cwd dir) with
    | Returns true =>
        (Val true, t1 ++ [Ran prefixed (Cwd dir) (Returns true)])
    | Returns false =>
        let t2 := t1 ++ [Ran prefixed (Cwd dir) (Returns false);
                         tag_failed lg (tag_with_v v)] in
        match run_command_oracle env t2 bare (Cwd dir) with
        | Returns true => (Val true, t2 ++ [Ran bare (Cwd dir) (Returns true)])
        | Returns false =>
            (Val ok, t2 ++ [Ran bare (Cwd dir) (Returns false);
                            tag_failed lg v])
        | Raises what =>
            (Exn (Unexpected what), t2 ++ [Ran bare (Cwd dir) (Raises what)])
        end
    | Raises what =>
        (Exn (Unexpected what), t1 ++ [Ran prefixed (Cwd dir) (Raises what)])
    end.
Proof.
  intros Hgo Hv Hdev Hne Hplaceholder Hfetch t1 prefixed bare.
  destruct (version_tag_usable p v Hv Hdev Hne) as [Htag Husable].
  unfold checkout_version. rewrite Hgo, Husable, Htag. cbn [fmt].
  rewrite (bind_val _ _ _ _ _ (run_command_returns env _ _ _ _ Hfetch)).
  fold t1.
  assert (("v" +:+ v =? "v0.0.0")%string = false) as ->.
  { apply String.eqb_neq. intros [= ?]. contradiction. }
  assert ((v =? "0.0.0")%string = false) as ->
    by now apply String.eqb_neq.
  cbn [negb]. fold (tag_with_v v).
  unfold bind at 1. rewrite checkout_tag_cases. fold prefixed.
  destruct (run_command_oracle env t1 prefixed (Cwd dir)) as [[|]|what];
    try reflexivity.
  unfold bind at 1. rewrite checkout_tag_cases. fold bare.
  destruct (run_command_oracle env _ bare (Cwd dir)) as [[|]|what];
    reflexivity.
Qed.

(** X9: when the tags cannot be fetched, no tag is checked out and
    nothing is logged; with no commit checked out before, the stage
    fails. *)
Theorem failed_tag_fetch_fails_checkout t v ok :
  negb (truthy (commit_hash p)) || negb ok = true ->
  version p = Some v -> str_in ".dev" v = false -> v <> "" ->
  run_command_oracle env t fetch_tags_command (Cwd dir) = Returns false ->
  checkout_version env p dir lg ok t
  = (Val ok, t ++ [Ran fetch_tags_command (Cwd dir) (Returns false)])
  /\ (truthy (commit_hash p) = true -> ok = false).
Proof.
  intros Hgo Hv Hdev Hne Hfetch.
  destruct (version_tag_usable p v Hv Hdev Hne) as [Htag Husable].
  split.
  - unfold checkout_version. rewrite Hgo, Husable.
    now rewrite (bind_val _ _ _ _ _ (run_command_returns env _ _ _ _ Hfetch)).
  - intros Hc. rewrite Hc in Hgo. now destruct ok.
Qed.

End CheckoutMore.

Lemma pinned_commit_settles_checkout_witness :
  truthy (commit_hash pinned) = true
  /\ clone_and_checkout all_succeed pinned "/tmp/plugin" "pinned" []
     = (Val true,
        [Ran (clone_command pinned "/tmp/plugin") CwdNone (Returns true);
         Ran (commit_fetch_command pinned) (Cwd "/tmp/plugin") (Returns true);
         Ran (commit_checkout_command pinned) (Cwd "/tmp/plugin")
           (Returns true);
         Logged "pinned" INFO
           "Checked out commit 'abc123' successfully for 'pinned'."]).
Proof.
  split; [reflexivity|].
  apply (pinned_commit_settles_checkout all_succeed pinned "/tmp/plugin"
           "pinned" [] eq_refl eq_refl eq_refl eq_refl).
Defined.

Lemma failed_commit_is_masked_without_version_witness :
  truthy (commit_hash pinned_dev) = true
  /\ truthy (version_tag_of pinned_dev) = false
  /\ exists msg,
       clone_and_checkout only_clone_succeeds pinned_dev "/tmp/plugin"
         "pinned_dev" []
       = (Val true,
          [Ran (clone_command pinned_dev "/tmp/plugin") CwdNone
             (Returns true);
           Ran (commit_fetch_command pinned_dev) (Cwd "/tmp/plugin")
             (Returns false);
           Logged "pinned_dev" ERROR
             "Failed to check out commit 'abc123' for 'pinned_dev'."]
          ++ [Logged "pinned_dev" WARNING msg]).
Proof.
  split; [reflexivity|]. split; [reflexivity|].
  apply (failed_commit_is_masked_without_version only_clone_succeeds
           pinned_dev "/tmp/plugin" "pinned_dev" [] _
           eq_refl eq_refl eq_refl eq_refl).
Defined.

Lemma tag_fallback_tries_prefixed_tag_first_witness :
  version healthy = Some "1.0.0"
  /\ checkout_version checkouts_fail healthy "/tmp/plugin" "healthy" false []
     = (Val false,
        [Ran fetch_tags_command (Cwd "/tmp/plugin") (Returns true);
         Ran (tag_checkout_command "v1.0.0") (Cwd "/tmp/plugin")
           (Returns false);
         tag_failed "healthy" "v1.0.0";
         Ran (tag_checkout_command "1.0.0") (Cwd "/tmp/plugin")
           (Returns false);
         tag_failed "healthy" "1.0.0"]).
Proof.
  split; [reflexivity|].
  rewrite (tag_fallback_tries_prefixed_tag_first checkouts_fail healthy
             "/tmp/plugin" "healthy" [] "1.0.0" false
             eq_refl eq_refl eq_refl ltac:(discriminate) ltac:(discriminate)
             eq_refl).
  reflexivity.
Defined.

Lemma failed_tag_fetch_fails_checkout_witness :
  version healthy = Some "1.0.0"
  /\ checkout_version fetches_fail healthy "/tmp/plugin" "healthy" false []
     = (Val false,
        [] ++ [Ran fetch_tags_command (Cwd "/tmp/plugin") (Returns false)]).
Proof.
  split; [reflexivity|].
  apply (failed_tag_fetch_fails_checkout fetches_fail healthy
           "/tmp/plugin" "healthy" [] "1.0.0" false
           eq_refl eq_refl eq_refl ltac:(discriminate) eq_refl).
Defined.

(** ** The stages after checkout *)

Ltac fail_fast_leaf :=
  first [reflexivity | lia | intros ?; congruence | intros ?; reflexivity].

(** X10: [install_and_test] is fail-fast. Its four commands, the
    creation of the virtual environment, the installation of the
    distribution's requirements, the installation of the package's own
    dependencies and the tests, run in this order, each in its directory,
    as long as each succeeds; the first one that does not is the last one
    run. The result is [True] exactly when all four succeeded, [False]
    when only the tests failed, [None] when an earlier command failed, and
    the command runner's error when it raised. *)
Theorem install_and_test_fails_fast env p dir lg t :
  let venv := path_join dir "venv" in
  let python_path := path_join (path_join venv "bin") "python" in
  let requirements_file := path_join (getcwd env) "requirements.txt" in
  let steps :=
    [Ran (strs ["uv"; "venv"; "-p"; "3.12"; "--seed"; venv]) CwdDefault;
     Ran (strs ["uv"; "pip"; "install"; "-r"; requirements_file;
                "--reinstall"; "--quiet"; "-p"; python_path])
       (Cwd (getcwd env));
     Ran (strs ["uv"; "pip"; "install"; "-r"; dir +:+ "/pyproject.toml";
                "--all-extras"; "-p"; python_path; "-c";
                requirements_file])
       (Cwd dir);
     Ran (if truthy (TESTS_TO_RUN env (name p))
          then strs [python_path; "-m"; "pytest"; "-p"; "no:warnings"]
                 ++ strs [path_join dir (fmt (TESTS_TO_RUN env (name p)))]
          else strs [python_path; "-m"; "pytest"; "-p"; "no:warnings"]
                 ++ strs [dir])
       (Cwd dir)] in
  exists evs (k : nat) (last : Outcome),
    install_and_test env p dir lg t
    = (match last with
       | Returns true => Val (Some true)
       | Returns false => Val (if (k =? 3)%nat then Some false else None)
       | Raises what => Exn (Unexpected what)
       end,
       t ++ evs)
    /\ commands evs
       = zip_with (fun step out => step out) (take (S k) steps)
           (replicate k (Returns true) ++ [last])
    /\ (k <= 3)%nat
    /\ (last = Returns true -> k = 3%nat).
Proof.
  cbv zeta. unfold install_and_test.
  erewrite bind_val by (apply log_emits; discriminate).
  unfold bind at 1. unfold run_command at 1.
  destruct (run_command_oracle env _ _ _) as [[|]|what1]; cbn [negb];
    [| | eexists; exists 0%nat, (Raises what1);
         split; [cbn; rewrite <- ?app_assoc; reflexivity|];
         repeat split; fail_fast_leaf].
  2: { erewrite bind_val by (apply log_emits; discriminate).
       eexists; exists 0%nat, (Returns false).
       split; [cbn; rewrite <- ?app_assoc; reflexivity|].
       repeat split; fail_fast_leaf. }
  erewrite bind_val by (apply log_emits; discriminate).
  unfold bind at 1. unfold run_command at 1.
  destruct (run_command_oracle env _ _ _) as [[|]|what2]; cbn [negb];
    [| | eexists; exists 1%nat, (Raises what2);
         split; [cbn; rewrite <- ?app_assoc; reflexivity|];
         repeat split; fail_fast_leaf].
  2: { erewrite bind_val by (apply log_emits; discriminate).
       eexists; exists 1%nat, (Returns false).
       split; [cbn; rewrite <- ?app_assoc; reflexivity|].
       repeat split; fail_fast_leaf. }
  erewrite bind_val by (apply log_emits; discriminate).
  unfold bind at 1. unfold run_command at 1.
  destruct (run_command_oracle env _ _ _) as [[|]|what3]; cbn [negb];
    [| | eexists; exists 2%nat, (Raises what3);
         split; [cbn; rewrite <- ?app_assoc; reflexivity|];
         repeat split; fail_fast_leaf].
  2: { erewrite bind_val by (apply log_emits; discriminate).
       eexists; exists 2%nat, (Returns false).
       split; [cbn; rewrite <- ?app_assoc; reflexivity|].
       repeat split; fail_fast_leaf. }
  erewrite bind_val by (apply log_emits; discriminate).
  erewrite bind_val by (apply log_emits; discriminate).
  cbv zeta.
  unfold bind at 1. unfold run_command at 1.
  destruct (run_command_oracle env _ _ _) as [[|]|what4]; cbn [negb].
  - erewrite bind_val by (apply log_emits; discriminate).
    eexists; exists 3%nat, (Returns true).
    split; [cbn; rewrite <- ?app_assoc; reflexivity|].
    repeat split; fail_fast_leaf.
  - erewrite bind_val by (apply log_emits; discriminate).
    eexists; exists 3%nat, (Returns false).
    split; [cbn; rewrite <- ?app_assoc; reflexivity|].
    repeat split; fail_fast_leaf.
  - eexists; exists 3%nat, (Raises what4).
    split; [cbn; rewrite <- ?app_assoc; reflexivity|].
    repeat split; fail_fast_leaf.
Qed.

(** ** What a package's pipeline leaves in the trace *)

Section Emits.

Variable env : Env.

Lemma emits_ret {A} P (a : A) : emits P (ret a).
Proof. intros t. exists []. simpl. now rewrite app_nil_r. Qed.

Lemma emits_emit P ev : P ev -> emits P (emit ev).
Proof. intros Hev t. exists [ev]. split; [reflexivity | now constructor]. Qed.

Lemma emits_log P lg lvl msg : P (Logged lg lvl msg) -> emits P (log lg lvl msg).
Proof.
  intros Hev. destruct lvl; [apply emits_ret | now apply emits_emit ..].
Qed.

Lemma emits_run_command P argv cwd :
  (forall out, P (Ran argv cwd out)) -> emits P (run_command env argv cwd).
Proof.
  intros Hev t. unfold run_command.
  destruct (run_command_oracle env t argv cwd) eqn:E;
    (eexists; split; [reflexivity | repeat constructor; apply Hev]).
Qed.

Lemma emits_bind {A B} P (m : M A) (k : A -> M B) :
  emits P m -> (forall a, emits P (k a)) -> emits P (bind m k).
Proof.
  intros Hm Hk t. unfold bind.
  destruct (Hm t) as (evs & Hevs & HP).
  destruct (m t) as [[a|e] t1]; simpl in Hevs; subst t1.
  - destruct (Hk a (t ++ evs)) as (evs' & Hevs' & HP').
    exists (evs ++ evs'). rewrite Hevs', app_assoc.
    split; [reflexivity | now apply Forall_app].
  - now exists evs.
Qed.

Ltac emits_step :=
  lazymatch goal with
  | |- emits _ (ret _) => apply emits_ret
  | |- emits _ (log _ _ _) => apply emits_log; reflexivity
  | |- emits _ (run_command _ _ _) =>
      apply emits_run_command; intros ?; cbn; tauto
  | |- emits _ (bind _ _) => apply emits_bind; [|intros ?]
  | |- emits _ (if ?b then _ else _) => destruct b
  end.

Lemma emits_checkout_tag lg dir tag :
  emits (stage_event env lg dir) (checkout_tag env dir tag lg).
Proof. unfold checkout_tag. repeat emits_step. Qed.

Lemma emits_checkout_stage p lg dir :
  emits (stage_event env lg dir) (checkout_stage env p dir lg).
Proof.
  unfold checkout_stage, checkout_commit, checkout_version.
  repeat first [apply emits_checkout_tag | emits_step].
Qed.

Lemma emits_clone_and_checkout p lg dir :
  emits (stage_event env lg dir) (clone_and_checkout env p dir lg).
Proof.
  unfold clone_and_checkout.
  repeat first [apply emits_checkout_stage | emits_step].
Qed.

Lemma emits_install_and_test p lg dir :
  emits (stage_event env lg dir) (install_and_test env p dir lg).
Proof. unfold install_and_test. repeat emits_step. Qed.

(** The [try] block for a package with a URL: the temporary directory is
    created, the stages run in it, and it is removed, whatever the stages
    gave. *)
Lemma package_pipeline_with_url p lg u t :
  github_url p = Some u ->
  let t0 := t ++ [Logged lg INFO ("Package info: " +:+ repr_package env p)] in
  let d := mkdtemp env t0 in
  exists mid,
    (package_pipeline env p lg t).2
    = t0 ++ [TempDirCreated d] ++ mid ++ [TempDirRemoved d]
    /\ Forall (stage_event env lg d) mid.
Proof.
  intros Hurl t0 d. unfold package_pipeline. rewrite Hurl.
  rewrite (bind_val _ _ _ _ _ (log_emits _ INFO _ _ ltac:(discriminate))).
  fold t0. unfold with_TemporaryDirectory. fold d.
  unfold bind at 1, emit at 1, try_finally, emit.
  assert (emits (stage_event env lg d)
            (checked_out <- clone_and_checkout env p d lg ;;
             if negb checked_out then ret None
             else install_and_test env p d lg)) as Hbody.
  { repeat first [apply emits_clone_and_checkout
                 | apply emits_install_and_test | emits_step]. }
  destruct (Hbody (t0 ++ [TempDirCreated d])) as (mid & Hmid & HP).
  exists mid. split; [|exact HP].
  destruct (bind _ _ (t0 ++ [TempDirCreated d])) as [r t1].
  simpl in Hmid. subst t1. simpl. now rewrite <- !app_assoc.
Qed.

End Emits.

(** X11: the temporary directory of a package is removed on every way out
    of its pipeline, error included: it is created once, after the
    package information is logged, and removed once, just before the log
    handler is released; in between there are only log records of the
    package's own logger and commands that run in that directory, in the
    working directory or in none. *)
Theorem temporary_directory_is_always_removed env p u t :
  github_url p = Some u ->
  let t0 := t ++ setup_events p
              ++ [Logged (name p) INFO
                    ("Package info: " +:+ repr_package env p)] in
  let d := mkdtemp env t0 in
  exists mid,
    (clone_and_test_package env p t).2
    = t0 ++ [TempDirCreated d] ++ mid ++ [TempDirRemoved d]
         ++ release_events p
    /\ Forall (stage_event env (name p) d) mid.
Proof.
  intros Hurl t0 d.
  destruct (clone_and_test_package_frame env p t) as (mid0 & Hmid0 & Hframe).
  destruct (package_pipeline_with_url env p (name p) u (t ++ setup_events p)
              Hurl) as (mid & Hmid & HP).
  cbv zeta in Hmid. rewrite <- (app_assoc t) in Hmid, HP.
  fold t0 d in Hmid, HP.
  exists mid. split; [|exact HP].
  rewrite Hframe. cbn [snd].
  rewrite Hmid in Hmid0.
  assert (mid0 = [Logged (name p) INFO
                    ("Package info: " +:+ repr_package env p)]
                 ++ [TempDirCreated d] ++ mid ++ [TempDirRemoved d])
    as ->.
  { apply (app_inv_head (t ++ setup_events p)). rewrite <- Hmid0.
    unfold t0. now rewrite <- !app_assoc. }
  unfold t0. now rewrite <- !app_assoc.
Qed.

Lemma temporary_directory_is_always_removed_witness :
  github_url crashing = Some crashing_url
  /\ exists mid,
       (clone_and_test_package one_crashes crashing []).2
       = ([] ++ setup_events crashing
             ++ [Logged "crashing" INFO "Package info: crashing"])
         ++ [TempDirCreated "/tmp/plugin"] ++ mid
         ++ [TempDirRemoved "/tmp/plugin"] ++ release_events crashing
       /\ Forall (stage_event one_crashes "crashing" "/tmp/plugin") mid.
Proof.
  split; [reflexivity|].
  apply (temporary_directory_is_always_removed one_crashes crashing
           crashing_url [] eq_refl).
Defined.

(** X12: whatever happens to a package, between the set-up of its log
    file and the release of it the trace holds nothing but log records of
    the package's own logger, commands, and the temporary directory
    coming and going: no other log file is opened, no record goes to
    another logger, nothing is printed. *)
Theorem package_logs_only_to_its_own_file env p t :
  exists mid,
    (clone_and_test_package env p t).2
    = t ++ setup_events p ++ mid ++ release_events p
    /\ Forall (pipeline_event (name p)) mid.
Proof.
  destruct (clone_and_test_package_frame env p t) as (mid & Hmid & Hframe).
  exists mid. split; [now rewrite Hframe|].
  destruct (github_url p) as [u|] eqn:Hurl.
  - destruct (package_pipeline_with_url env p (name p) u
                (t ++ setup_events p) Hurl) as (mid' & Hmid' & HP).
    cbv zeta in Hmid'. rewrite Hmid' in Hmid.
    rewrite <- !app_assoc in Hmid. apply app_inv_head in Hmid.
    apply app_inv_head in Hmid. subst mid.
    repeat (apply Forall_cons; split; [exact I || reflexivity|]).
    apply Forall_app. split; [|repeat constructor].
    eapply Forall_impl; [exact HP|].
    intros [] Hev; simpl in *; tauto.
  - unfold package_pipeline in Hmid. rewrite Hurl in Hmid.
    rewrite (bind_val _ _ _ _ _ (log_emits _ INFO _ _ ltac:(discriminate)))
      in Hmid.
    rewrite (bind_val _ _ _ _ _ (log_emits _ WARNING _ _ ltac:(discriminate)))
      in Hmid.
    simpl in Hmid. rewrite <- !app_assoc in Hmid.
    apply app_inv_head in Hmid. apply app_inv_head in Hmid. subst mid.
    repeat constructor.
Qed.

(** X13: a clone that fails ends the package's pipeline there: the error
    is logged, the temporary directory removed, the log released, no
    further command is run, and the package has no result. *)
Theorem failed_clone_ends_pipeline env p u t :
  github_url p = Some u ->
  let t0 := t ++ setup_events p
              ++ [Logged (name p) INFO
                    ("Package info: " +:+ repr_package env p)] in
  let d := mkdtemp env t0 in
  run_command_oracle env (t0 ++ [TempDirCreated d]) (clone_command p d)
    CwdNone = Returns false ->
  clone_and_test_package env p t
  = (Val None,
     t0 ++ [TempDirCreated d;
            Ran (clone_command p d) CwdNone (Returns false);
            Logged (name p) ERROR
              ("Failed to clone repository for '" +:+ name p +:+ "'.");
            TempDirRemoved d]
        ++ release_events p).
Proof.
  intros Hurl t0 d Hclone.
  destruct (clone_and_test_package_frame env p t) as (mid & Hmid & ->).
  assert (package_pipeline env p (name p) (t ++ setup_events p)
          = (Val None,
             t0 ++ [TempDirCreated d;
                    Ran (clone_command p d) CwdNone (Returns false);
                    Logged (name p) ERROR
                      ("Failed to clone repository for '" +:+ name p
                       +:+ "'.");
                    TempDirRemoved d])) as Hpipe.
  { unfold package_pipeline. rewrite Hurl.
    rewrite (bind_val _ _ _ _ _ (log_emits _ INFO _ _ ltac:(discriminate))).
    rewrite <- (app_assoc t). fold t0.
    unfold with_TemporaryDirectory. fold d.
    unfold bind at 1, emit at 1, try_finally.
    unfold bind at 1. rewrite clone_and_checkout_cases, Hclone.
    cbn. unfold clone_event. now rewrite <- !app_assoc. }
  rewrite Hpipe in Hmid |- *. cbn [fst snd] in *.
  f_equal. unfold t0 in Hmid. rewrite <- !app_assoc in Hmid.
  do 2 apply app_inv_head in Hmid. subst mid.
  unfold t0. now rewrite <- !app_assoc.
Qed.

Lemma failed_clone_ends_pipeline_witness :
  github_url healthy = Some "https://github.com/org/healthy.git"
  /\ clone_and_test_package all_fail healthy []
     = (Val None,
        ([] ++ setup_events healthy
            ++ [Logged "healthy" INFO "Package info: healthy"])
        ++ [TempDirCreated "/tmp/plugin";
            Ran (clone_command healthy "/tmp/plugin") CwdNone (Returns false);
            Logged "healthy" ERROR
              "Failed to clone repository for 'healthy'.";
            TempDirRemoved "/tmp/plugin"]
        ++ release_events healthy).
Proof.
  split; [reflexivity|].
  apply (failed_clone_ends_pipeline all_fail healthy _ [] eq_refl eq_refl).
Defined.

(** ** The dispatcher and the reporter, continued *)

Section Reporting.

Variable env : Env.

(** The dispatcher either returns the two lists, every worker having
    returned, or raises an error that one of the workers raised. *)
Lemma run_tests_parallel_cases packages t :
  (Forall (fun p => is_exn (worker env p) = false) packages
   /\ run_tests_parallel env packages t
      = (Val (map name (List.filter (passes env) packages),
              map name (List.filter (fun p => negb (passes env p)) packages)),
         t ++ dispatch_events packages))
  \/ (exists p what,
        p ∈ packages /\ worker env p = Exn (Unexpected what)
        /\ run_tests_parallel env packages t
           = (Exn (Unexpected what), t ++ dispatch_events packages)).
Proof.
  destruct (decide (Forall (fun p => is_exn (worker env p) = false) packages))
    as [Hall|Hnot].
  - left. split; [exact Hall | now apply run_tests_parallel_returns].
  - right. apply not_Forall_Exists in Hnot; [|intros ?; apply _].
    apply Exists_exists in Hnot as (q & Hq & He).
    destruct (worker env q) as [|e] eqn:Hw; [exfalso; apply He; now rewrite Hw|].
    destruct (pool_map_raises (completion_picks env) (worker env)
                packages q e Hq Hw) as (e' & p & Hp & Hw' & Hmap).
    destruct (worker_raises_unexpected env p e' Hw') as [what ->].
    exists p, what. split; [exact Hp|]. split; [exact Hw'|].
    unfold run_tests_parallel, bind, emit, lift.
    rewrite Hmap, <- app_assoc. reflexivity.
Qed.

Lemma filter_names_partition (f : PluginPackage -> bool) packages :
  map name (List.filter f packages)
    ++ map name (List.filter (fun p => negb (f p)) packages)
  ≡ₚ map name packages.
Proof.
  induction packages as [|p packages IH]; [reflexivity|].
  simpl. destruct (f p); simpl.
  - now rewrite IH.
  - rewrite <- Permutation_middle. now rewrite IH.
Qed.

Lemma filter_names_sublist (f : PluginPackage -> bool) packages :
  map name (List.filter f packages) `sublist_of` map name packages.
Proof.
  induction packages as [|p packages IH]; [constructor|].
  simpl. destruct (f p); simpl; [now apply sublist_skip | now apply sublist_cons].
Qed.

(** X14: when the dispatcher returns, the two lists split the names of
    the slice between them: every package is on exactly one of them, and
    each list keeps the order of the input. *)
Theorem passed_and_failed_split_the_slice packages t passed failed t' :
  run_tests_parallel env packages t = (Val (passed, failed), t') ->
  passed ++ failed ≡ₚ map name packages
  /\ passed `sublist_of` map name packages
  /\ failed `sublist_of` map name packages
  /\ (length passed + length failed = length packages)%nat.
Proof.
  intros Hrun.
  destruct (run_tests_parallel_cases packages t)
    as [[_ Hret]|(p & what & _ & _ & Hraise)];
    [|rewrite Hraise in Hrun; discriminate Hrun].
  rewrite Hret in Hrun. injection Hrun as <- <- _.
  pose proof (filter_names_partition (passes env) packages) as Hperm.
  split; [exact Hperm|]. split; [apply filter_names_sublist|].
  split; [apply filter_names_sublist|].
  apply Permutation_length in Hperm.
  rewrite length_app in Hperm. rewrite !length_map in *. exact Hperm.
Qed.

(** X15: the dispatcher leaves the same two events in the trace whatever
    the workers do, and it raises only when a worker raised, and then an
    error that a worker raised; in particular the loop over the results
    never runs out of results. *)
Theorem dispatcher_raises_only_worker_errors packages t :
  (run_tests_parallel env packages t).2 = t ++ dispatch_events packages
  /\ match (run_tests_parallel env packages t).1 with
     | Val _ => Forall (fun p => exists r, worker env p = Val r) packages
     | Exn e => exists p, p ∈ packages /\ worker env p = Exn e
     end.
Proof.
  destruct (run_tests_parallel_cases packages t)
    as [[Hall ->]|(p & what & Hp & Hw & ->)]; cbn [fst snd].
  - split; [reflexivity|]. eapply Forall_impl; [exact Hall|].
    intros p Hp. cbv beta in Hp.
    destruct (worker env p) as [r|e]; [eauto | discriminate Hp].
  - split; [reflexivity | eauto].
Qed.

(** One event per package, each decided by what reading the log file
    gave at that moment. *)
Lemma output_package_logs_shape packages t :
  exists evs,
    output_package_logs env packages t = (Val tt, t ++ evs)
    /\ length evs = length packages
    /\ forall (i : nat) p ev,
         packages !! i = Some p -> evs !! i = Some ev ->
         log_output_of env (t ++ take i evs) p ev.
Proof.
  revert t. induction packages as [|p packages IH]; intros t.
  - exists []. split; [simpl; unfold ret; now rewrite app_nil_r|].
    split; [reflexivity|]. intros i p ev Hp. now destruct i.
  - cbn [output_package_logs]. unfold bind at 1.
    assert (exists ev,
              (fun t0 =>
                 match read_file env t0
                         ("logs/" +:+ name p +:+ "/test_output.log") with
                 | FileContents log_contents =>
                     emit (Printed (nl +:+ "--- Log Output for " +:+ name p
                                    +:+ " ---" +:+ nl +:+ log_contents)) t0
                 | FileNotFound =>
                     emit (Logged module_logger ERROR
                             ("Log file not found for package: " +:+ name p
                              +:+ " at " +:+ "logs/" +:+ name p
                              +:+ "/test_output.log")) t0
                 | FileError e =>
                     emit (Logged module_logger ERROR
                             ("Error reading log file for package "
                              +:+ name p +:+ ": " +:+ e)) t0
                 end) t = (Val tt, t ++ [ev]) /\ log_output_of env t p ev)
      as (ev & -> & Hev).
    { cbv beta. unfold log_output_of.
      destruct (read_file env t _); eexists; split; reflexivity. }
    destruct (IH (t ++ [ev])) as (evs & -> & Hlen & Hevs).
    exists (ev :: evs). rewrite <- app_assoc.
    split; [reflexivity|]. split; [simpl; now rewrite Hlen|].
    intros [|i] q ev' Hq Hev'.
    + injection Hq as <-. injection Hev' as <-.
      cbn [take]. now rewrite app_nil_r.
    + cbn [take]. rewrite (cons_middle ev), app_assoc.
      now apply Hevs.
Qed.

(** X16: [output_package_logs] never fails and leaves exactly one event
    per package, in input order. For each package it reads
    [logs/<name>/test_output.log]: when the file can be read its contents
    are printed under the header of the package; when it is not there, or
    reading fails, an error record of the module's logger says so; it
    goes on with the next package either way. *)
Theorem output_package_logs_reports_every_package packages t :
  exists evs,
    output_package_logs env packages t = (Val tt, t ++ evs)
    /\ length evs = length packages
    /\ forall (i : nat) p ev,
         packages !! i = Some p -> evs !! i = Some ev ->
         match read_file env (t ++ take i evs)
                 ("logs/" +:+ name p +:+ "/test_output.log") with
         | FileContents log_contents =>
             ev = Printed (nl +:+ "--- Log Output for " +:+ name p
                           +:+ " ---" +:+ nl +:+ log_contents)
         | FileNotFound =>
             ev = Logged module_logger ERROR
                    ("Log file not found for package: " +:+ name p
                     +:+ " at logs/" +:+ name p +:+ "/test_output.log")
         | FileError e =>
             ev = Logged module_logger ERROR
                    ("Error reading log file for package " +:+ name p
                     +:+ ": " +:+ e)
         end.
Proof. apply output_package_logs_shape. Qed.

End Reporting.

Lemma passed_and_failed_split_the_slice_witness :
  run_tests_parallel all_succeed [healthy; placeholder; pinned] []
  = (Val (["healthy"; "pinned"], ["placeholder"]),
     [Makedirs "logs"; PoolMapped ["healthy"; "placeholder"; "pinned"]])
  /\ ["healthy"; "pinned"] ++ ["placeholder"]
     ≡ₚ map name [healthy; placeholder; pinned].
Proof.
  assert (run_tests_parallel all_succeed [healthy; placeholder; pinned] []
          = (Val (["healthy"; "pinned"], ["placeholder"]),
             [Makedirs "logs";
              PoolMapped ["healthy"; "placeholder"; "pinned"]])) as Hrun
    by (vm_compute; reflexivity).
  split; [exact Hrun|].
  apply (passed_and_failed_split_the_slice all_succeed _ _ _ _ _ Hrun).
Defined.

(** ** What gets dispatched *)

Lemma split_packages_sublist {A} (l : list A) (total index : Z) s :
  split_packages l total index = Val s -> s `sublist_of` l.
Proof.
  unfold split_packages, floordiv.
  destruct (total =? 0); [discriminate|].
  assert (forall lo hi, slice l lo hi `sublist_of` l) as Hslice.
  { intros lo hi. unfold slice.
    etransitivity; [apply sublist_take | apply sublist_drop]. }
  destruct (index =? total); intros [= <-]; apply Hslice.
Qed.

Lemma candidates_not_skipped pp skip p :
  p ∈ candidates pp skip ->
  exists key, (key, p) ∈ pp /\ key ∉ skip_items skip.
Proof.
  unfold candidates. fold (skip_items skip). intros Hp.
  apply list_elem_of_fmap in Hp as ([key p'] & -> & Hin).
  apply list_elem_of_filter in Hin as [Hkey Hin]. eauto.
Qed.

Lemma candidates_sublist pp skip :
  candidates pp skip `sublist_of` map snd pp.
Proof.
  unfold candidates. apply fmap_sublist, sublist_filter.
Qed.

Lemma log_output_is_no_dispatch env t p ev names :
  log_output_of env t p ev -> ev <> PoolMapped names.
Proof.
  unfold log_output_of.
  destruct (read_file env t _); intros ->; discriminate.
Qed.

(** X17: whatever the options, what [test_plugins] hands to the pool is a
    run of consecutive packages that were not skipped: the names in a
    dispatch are those of a sublist of the descriptors, in dictionary
    order, none of them under a key of the skip list. *)
Theorem only_unskipped_packages_are_dispatched env plugin_packages skip
    (node_total node_index : Z) t :
  exists evs,
    (test_plugins env plugin_packages skip node_total node_index t).2
    = t ++ evs
    /\ forall names,
         PoolMapped names ∈ evs ->
         exists slice,
           names = map name slice
           /\ slice `sublist_of` map snd plugin_packages
           /\ forall p, p ∈ slice ->
                exists key, (key, p) ∈ plugin_packages
                            /\ key ∉ skip_items skip.
Proof.
  unfold test_plugins. unfold bind at 1. unfold lift at 1.
  destruct (split_packages (candidates plugin_packages skip)
              node_total node_index) as [slice|e] eqn:Hsplit.
  2: { exists []. split; [simpl; now rewrite app_nil_r|].
       intros names Hin. inversion Hin. }
  assert (forall names,
            PoolMapped names ∈ dispatch_events slice ->
            exists slice',
              names = map name slice'
              /\ slice' `sublist_of` map snd plugin_packages
              /\ forall p, p ∈ slice' ->
                   exists key, (key, p) ∈ plugin_packages
                               /\ key ∉ skip_items skip) as Hdispatch.
  { intros names Hin. unfold dispatch_events in Hin.
    apply elem_of_cons in Hin as [[=]|Hin].
    apply list_elem_of_singleton in Hin as [= ->].
    pose proof (split_packages_sublist _ _ _ _ Hsplit) as Hsub.
    exists slice. split; [reflexivity|]. split.
    - etransitivity; [exact Hsub | apply candidates_sublist].
    - intros p Hp. apply candidates_not_skipped.
      eapply elem_of_sublist; eauto. }
  destruct slice as [|p0 slice0] eqn:Hslice.
  { eexists. split; [reflexivity|]. intros names Hin.
    apply list_elem_of_singleton in Hin. discriminate Hin. }
  rewrite <- Hslice in *. cbn [is_nil].
  replace (is_nil slice) with false by now subst slice.
  destruct (run_tests_parallel_cases env slice t)
    as [[_ Hret]|(p & what & _ & _ & Hraise)].
  - rewrite (bind_val _ _ _ _ _ Hret).
    destruct (output_package_logs_shape env slice
                (t ++ dispatch_events slice))
      as (logs & Hlogs & Hlen & Hshape).
    rewrite (bind_val _ _ _ _ _ Hlogs).
    exists (dispatch_events slice ++ logs
            ++ [Printed
                  (if negb (is_nil (map name
                                      (List.filter (passes env) slice)))
                   then "Tests passed for packages: "
                        +:+ join ", " (map name
                                         (List.filter (passes env) slice))
                   else "No packages passed the tests.")]
            ++ [Printed
                  (if negb (is_nil (map name
                                      (List.filter
                                         (fun p => negb (passes env p))
                                         slice)))
                   then "Tests failed for packages: "
                        +:+ join ", " (map name
                                         (List.filter
                                            (fun p => negb (passes env p))
                                            slice))
                   else "No packages failed the tests.")]).
    split.
    + unfold bind, emit, raise.
      destruct (is_nil (map name (List.filter (passes env) slice))),
        (is_nil (map name (List.filter (fun p => negb (passes env p)) slice)));
        cbn; now rewrite <- !app_assoc.
    + intros names Hin. rewrite !elem_of_app in Hin.
      destruct Hin as [Hin|[Hin|[Hin|Hin]]].
      * now apply Hdispatch.
      * apply list_elem_of_lookup in Hin as [i Hi].
        destruct (lookup_lt_is_Some_2 slice i) as [q Hq].
        { rewrite <- Hlen. eapply lookup_lt_Some; eauto. }
        now destruct (log_output_is_no_dispatch _ _ _ _ names
                        (Hshape i q _ Hq Hi)).
      * apply list_elem_of_singleton in Hin. discriminate Hin.
      * apply list_elem_of_singleton in Hin. discriminate Hin.
  - rewrite (bind_exn _ _ _ _ _ Hraise).
    exists (dispatch_events slice). split; [reflexivity | exact Hdispatch].
Qed.

(** * Properties of [parsing.py] *)

Section Descriptors.

Variable git_packages : gmap string LockGitInfo.

Lemma project_urls_value url_list url_dict t :
  exists evs,
    project_urls url_list url_dict t
    = (Val (project_url_dict url_list url_dict), t ++ evs)
    /\ Forall (fun ev => exists msg, ev = Printed msg) evs.
Proof.
  revert url_dict t. induction url_list as [|url rest IH]; intros d t.
  - exists []. split; [simpl; unfold ret; now rewrite app_nil_r | constructor].
  - cbn [project_urls project_url_dict foldl].
    destruct (split_once "," url) as [[n v]|].
    + apply IH.
    + unfold bind at 1, emit at 1.
      destruct (IH d (t ++ [Printed ("Warning: Invalid Project-URL format: "
                                      +:+ url)])) as (evs & -> & Hevs).
      eexists. rewrite <- app_assoc. split; [reflexivity|].
      constructor; eauto.
Qed.

Lemma process_entry_point_value plugin_packages entry_point t :
  exists evs,
    process_entry_point git_packages plugin_packages entry_point t
    = (Val (add_entry_point git_packages plugin_packages entry_point),
       t ++ evs)
    /\ Forall (fun ev => exists msg, ev = Printed msg) evs.
Proof.
  unfold process_entry_point, add_entry_point.
  destruct (ep_dist entry_point) as [dist|].
  - destruct (project_urls_value (default [] (project_url dist)) ∅ t)
      as (evs & Hurls & Hevs).
    rewrite (bind_val _ _ _ _ _ Hurls). exists evs. split; [|exact Hevs].
    unfold descriptor.
    destruct (bool_decide _); reflexivity.
  - eexists. split; [reflexivity|]. repeat constructor. eauto.
Qed.

Lemma process_entry_points_value plugin_packages plugin_entry_points t :
  exists evs,
    process_entry_points git_packages plugin_packages plugin_entry_points t
    = (Val (foldl (add_entry_point git_packages) plugin_packages
              plugin_entry_points),
       t ++ evs)
    /\ Forall (fun ev => exists msg, ev = Printed msg) evs.
Proof.
  revert plugin_packages t.
  induction plugin_entry_points as [|ep rest IH]; intros pps t.
  - exists []. split; [simpl; unfold ret; now rewrite app_nil_r | constructor].
  - cbn [process_entry_points foldl].
    destruct (process_entry_point_value pps ep t) as (evs & Hstep & Hevs).
    rewrite (bind_val _ _ _ _ _ Hstep).
    destruct (IH (add_entry_point git_packages pps ep) (t ++ evs))
      as (evs' & -> & Hevs').
    exists (evs ++ evs'). rewrite <- app_assoc.
    split; [reflexivity | now apply Forall_app].
Qed.

Lemma descriptor_name entry_point dist :
  name (descriptor git_packages entry_point dist)
  = package_name_of entry_point.
Proof.
  unfold descriptor, new_plugin_package, attach_git_info. cbn.
  now destruct (git_packages !! _).
Qed.

Lemma add_entry_point_well_keyed plugin_packages entry_point :
  well_keyed plugin_packages ->
  well_keyed (add_entry_point git_packages plugin_packages entry_point).
Proof.
  intros [Hnd Hnames]. unfold add_entry_point.
  destruct (ep_dist entry_point) as [dist|]; [|now split].
  destruct (bool_decide_reflect
              (package_name_of entry_point ∈ map fst plugin_packages))
    as [Hin|Hnot]; [now split|].
  split.
  - rewrite map_app. apply NoDup_app. split; [exact Hnd|].
    split; [|apply NoDup_singleton].
    intros k Hk Hk'. apply list_elem_of_singleton in Hk'. simpl in Hk'.
    now subst k.
  - apply Forall_app. split; [exact Hnames|].
    repeat constructor. apply descriptor_name.
Qed.

Lemma foldl_add_entry_point_well_keyed plugin_packages plugin_entry_points :
  well_keyed plugin_packages ->
  well_keyed (foldl (add_entry_point git_packages) plugin_packages
                plugin_entry_points).
Proof.
  revert plugin_packages.
  induction plugin_entry_points as [|ep rest IH]; intros pps Hwk;
    [exact Hwk|].
  apply IH. now apply add_entry_point_well_keyed.
Qed.

(** X18: [get_plugin_packages] always returns, whatever the entry points,
    leaving only printed messages in the trace; in the dictionary it
    returns no key comes twice and every descriptor stands under its own
    name. *)
Theorem get_plugin_packages_is_well_keyed plugin_entry_points t :
  exists plugin_packages evs,
    get_plugin_packages git_packages plugin_entry_points t
    = (Val plugin_packages, t ++ evs)
    /\ well_keyed plugin_packages
    /\ Forall (fun ev => exists msg, ev = Printed msg) evs.
Proof.
  destruct (process_entry_points_value [] plugin_entry_points t)
    as (evs & Hrun & Hevs).
  eexists _, evs. split; [exact Hrun|]. split; [|exact Hevs].
  apply foldl_add_entry_point_well_keyed. split; constructor.
Qed.

Lemma foldl_add_entry_point_keeps plugin_packages plugin_entry_points kp :
  kp ∈ plugin_packages ->
  kp ∈ foldl (add_entry_point git_packages) plugin_packages
         plugin_entry_points.
Proof.
  revert plugin_packages.
  induction plugin_entry_points as [|ep rest IH]; intros pps Hin;
    [exact Hin|].
  apply IH. unfold add_entry_point.
  destruct (ep_dist ep); [|exact Hin].
  destruct (bool_decide _); [exact Hin|].
  apply elem_of_app. now left.
Qed.

(** Where the items of the dictionary come from. *)
Lemma foldl_add_entry_point_origin plugin_packages plugin_entry_points k p :
  (k, p) ∈ foldl (add_entry_point git_packages) plugin_packages
             plugin_entry_points ->
  (k, p) ∈ plugin_packages
  \/ exists pre ep post dist,
       plugin_entry_points = pre ++ ep :: post
       /\ ep_dist ep = Some dist
       /\ k = package_name_of ep
       /\ p = descriptor git_packages ep dist
       /\ (k ∉ map fst plugin_packages)
       /\ forall ep', ep' ∈ pre -> is_Some (ep_dist ep') ->
                      package_name_of ep' <> k.
Proof.
  revert plugin_packages.
  induction plugin_entry_points as [|ep rest IH]; intros pps Hin;
    [now left|].
  cbn [foldl] in Hin. apply IH in Hin as [Hin|Hin].
  - unfold add_entry_point in Hin.
    destruct (ep_dist ep) as [dist|] eqn:Hdist; [|now left].
    destruct (bool_decide_reflect (package_name_of ep ∈ map fst pps))
      as [Hseen|Hnew]; [now left|].
    apply elem_of_app in Hin as [Hin|Hin]; [now left|].
    apply list_elem_of_singleton in Hin. injection Hin as -> ->.
    right. exists [], ep, rest, dist. repeat split; try assumption.
    intros ep' Hep'. inversion Hep'.
  - destruct Hin as (pre & ep0 & post & dist & -> & Hdist & -> & -> & Hk
                      & Hfirst).
    assert (package_name_of ep0 ∉ map fst pps) as Hk'.
    { intros Hin. apply Hk. unfold add_entry_point.
      destruct (ep_dist ep); [|exact Hin].
      destruct (bool_decide _); [exact Hin|].
      rewrite map_app. apply elem_of_app. now left. }
    right. exists (ep :: pre), ep0, post, dist.
    repeat split; try assumption; try reflexivity.
    intros ep' Hep' Hsome Heq. apply elem_of_cons in Hep' as [->|Hep'].
    + apply Hk. unfold add_entry_point.
      destruct Hsome as [dist' ->].
      destruct (bool_decide_reflect (package_name_of ep ∈ map fst pps))
        as [Hseen|Hnew]; [now rewrite <- Heq|].
      rewrite map_app. apply elem_of_app. right.
      rewrite <- Heq. now left.
    + exact (Hfirst ep' Hep' Hsome Heq).
Qed.

(** The first entry point of a package puts its descriptor in. *)
Lemma foldl_add_entry_point_first pre ep post dist :
  ep_dist ep = Some dist ->
  (forall ep', ep' ∈ pre -> is_Some (ep_dist ep') ->
               package_name_of ep' <> package_name_of ep) ->
  (package_name_of ep, descriptor git_packages ep dist)
  ∈ foldl (add_entry_point git_packages) [] (pre ++ ep :: post).
Proof.
  intros Hdist Hfirst. rewrite foldl_app. cbn [foldl].
  apply foldl_add_entry_point_keeps.
  set (acc := foldl (add_entry_point git_packages) [] pre).
  assert (package_name_of ep ∉ map fst acc) as Hnew.
  { intros Hin. apply list_elem_of_fmap in Hin as ([k p] & Hk & Hin).
    simpl in Hk. subst k.
    apply foldl_add_entry_point_origin in Hin as [Hin|Hin];
      [inversion Hin|].
    destruct Hin as (pre' & ep' & post' & dist' & Hpre & Hdist' & Hk & _).
    apply (Hfirst ep'); [|eauto|now symmetry].
    rewrite Hpre. apply elem_of_app. right. now left. }
  unfold add_entry_point. rewrite Hdist.
  rewrite bool_decide_eq_false_2 by exact Hnew.
  apply elem_of_app. right. now left.
Qed.

(** X19: the dictionary holds, for each package name, the descriptor
    built from the first entry point of that name that has a
    distribution, and nothing else: later entry points of the same
    package, and entry points without a distribution, add nothing and
    change nothing. *)
Theorem first_entry_point_makes_the_descriptor plugin_entry_points t k p :
  (exists plugin_packages t',
     get_plugin_packages git_packages plugin_entry_points t
     = (Val plugin_packages, t')
     /\ (k, p) ∈ plugin_packages)
  <->
  (exists pre ep post dist,
     plugin_entry_points = pre ++ ep :: post
     /\ ep_dist ep = Some dist
     /\ k = package_name_of ep
     /\ p = descriptor git_packages ep dist
     /\ forall ep', ep' ∈ pre -> is_Some (ep_dist ep') ->
                    package_name_of ep' <> k).
Proof.
  destruct (process_entry_points_value [] plugin_entry_points t)
    as (evs & Hrun & _).
  unfold get_plugin_packages. rewrite Hrun. split.
  - intros (pps & t' & [= <- _] & Hin).
    apply foldl_add_entry_point_origin in Hin as [Hin|Hin];
      [inversion Hin|].
    destruct Hin as (pre & ep & post & dist & ? & ? & ? & ? & _ & ?).
    exists pre, ep, post, dist. auto.
  - intros (pre & ep & post & dist & -> & Hdist & -> & -> & Hfirst).
    eexists _, _. split; [reflexivity|].
    now apply foldl_add_entry_point_first.
Qed.

Lemma get_git_url_without_github_url p0 :
  github_url p0 = None ->
  get_git_url p0
  = if is_valid_github_url (repository p0) then repository p0
    else if is_valid_github_url (homepage p0) then homepage p0
    else None.
Proof.
  intros Hnone. rewrite get_git_url_cascade. cbv zeta.
  now rewrite Hnone.
Qed.

(** X20: where the clone URL of a descriptor comes from. A package that
    the lock data lists, under its name with [_] turned into [-], gets
    URL and commit from there as they are. Any other package has no
    commit, and its URL is the [Repository] URL of its metadata if that
    validates, else the [Homepage] URL if that validates, else none,
    each taken as it stands. *)
Theorem descriptor_clone_source plugin_entry_points t plugin_packages t'
    k p :
  get_plugin_packages git_packages plugin_entry_points t
    = (Val plugin_packages, t') ->
  (k, p) ∈ plugin_packages ->
  match git_packages !! replace_char "_" "-" k with
  | Some git_info =>
      github_url p = Some (url git_info)
      /\ commit_hash p = Some (commit git_info)
  | None =>
      commit_hash p = None
      /\ github_url p
         = if is_valid_github_url (repository p) then repository p
           else if is_valid_github_url (homepage p) then homepage p
           else None
  end.
Proof.
  intros Hrun Hin.
  destruct (process_entry_points_value [] plugin_entry_points t)
    as (evs & Hval & _).
  unfold get_plugin_packages in Hrun. rewrite Hval in Hrun.
  injection Hrun as <- _.
  apply foldl_add_entry_point_origin in Hin as [Hin|Hin]; [inversion Hin|].
  destruct Hin as (pre & ep & post & dist & _ & _ & -> & -> & _).
  unfold descriptor, new_plugin_package. cbn [name].
  destruct (git_packages !! _) as [gi|]; cbn; [now split|].
  split; [reflexivity|]. now rewrite get_git_url_without_github_url.
Qed.

Lemma project_url_dict_other_labels url_list url_dict label :
  (forall url n v, url ∈ url_list -> split_once "," url = Some (n, v) ->
                   lower n <> label) ->
  project_url_dict url_list url_dict !! label = url_dict !! label.
Proof.
  revert url_dict. induction url_list as [|url rest IH]; intros d Hother;
    [reflexivity|].
  cbn [project_url_dict foldl].
  fold (project_url_dict rest
          match split_once "," url with
          | Some (name, value) => <[lower name := strip value]> d
          | None => d
          end).
  rewrite IH by (intros url' n v Hin; apply Hother; now right).
  destruct (split_once "," url) as [[n v]|] eqn:Hsplit; [|reflexivity].
  apply lookup_insert_ne. eapply Hother; [left|exact Hsplit].
Qed.

(** X21: the labels of the [Project-URL] entries are read without regard
    to case, the URL is stripped of surrounding blanks, and of several
    entries with the same label the last one counts. *)
Theorem last_project_url_of_a_label_counts pre url post n v t :
  split_once "," url = Some (n, v) ->
  (forall url' n' v', url' ∈ post -> split_once "," url' = Some (n', v') ->
                      lower n' <> lower n) ->
  exists url_dict evs,
    project_urls (pre ++ url :: post) ∅ t = (Val url_dict, t ++ evs)
    /\ url_dict !! lower n = Some (strip v).
Proof.
  intros Hsplit Hlast.
  destruct (project_urls_value (pre ++ url :: post) ∅ t) as (evs & Hrun & _).
  eexists _, evs. split; [exact Hrun|].
  unfold project_url_dict. rewrite foldl_app. cbn [foldl]. rewrite Hsplit.
  fold (project_url_dict post
          (<[lower n := strip v]>
             (foldl (fun d url0 =>
                       match split_once "," url0 with
                       | Some (name, value) => <[lower name := strip value]> d
                       | None => d
                       end) ∅ pre))).
  rewrite project_url_dict_other_labels by exact Hlast.
  apply lookup_insert_eq.
Qed.

(** X22: an entry point that cannot be processed, having no distribution,
    is reported and passed over: the dictionary is the one the other
    entry points give without it. *)
Theorem broken_entry_point_is_passed_over pre ep post t :
  ep_dist ep = None ->
  (get_plugin_packages git_packages (pre ++ ep :: post) t).1
  = (get_plugin_packages git_packages (pre ++ post) t).1
  /\ Printed ("Error processing plugin " +:+ ep_name ep
              +:+ ": 'NoneType' object has no attribute 'metadata'")
     ∈ (get_plugin_packages git_packages (pre ++ ep :: post) t).2.
Proof.
  intros Hdist. unfold get_plugin_packages. split.
  - destruct (process_entry_points_value [] (pre ++ ep :: post) t)
      as (evs & -> & _).
    destruct (process_entry_points_value [] (pre ++ post) t)
      as (evs' & -> & _).
    cbn [fst]. rewrite !foldl_app. cbn [foldl].
    unfold add_entry_point at 2. now rewrite Hdist.
  - assert (forall acc l t0 ev,
              ev ∈ t0 ->
              ev ∈ (process_entry_points git_packages acc l t0).2) as Hkeep.
    { intros acc l t0 ev Hin.
      destruct (process_entry_points_value acc l t0) as (evs & -> & _).
      apply elem_of_app. now left. }
    generalize (@nil (string * PluginPackage)). revert t.
    induction pre as [|ep0 pre IH]; intros t acc.
    + cbn [app process_entry_points]. unfold bind at 1.
      unfold process_entry_point. rewrite Hdist.
      unfold bind at 1, emit at 1, ret. apply Hkeep.
      apply elem_of_app. right. now left.
    + cbn [app process_entry_points].
      destruct (process_entry_point_value acc ep0 t) as (evs & Hstep & _).
      rewrite (bind_val _ _ _ _ _ Hstep). apply IH.
Qed.

End Descriptors.

(** ** The pattern of the plugin lines *)

Section RegexFacts.

Lemma append_cons (c : ascii) (a b : string) :
  String c a +:+ b = String c (a +:+ b).
Proof. reflexivity. Qed.

Lemma append_assoc (a b c : string) : (a +:+ b) +:+ c = a +:+ b +:+ c.
Proof.
  induction a as [|x a IH]; [reflexivity | now rewrite !append_cons, IH].
Qed.

Lemma length_append (a b : string) :
  String.length (a +:+ b) = (String.length a + String.length b)%nat.
Proof.
  induction a as [|x a IH]; [reflexivity|].
  rewrite append_cons. simpl. now rewrite IH.
Qed.

Lemma substring_prefix (u rest : string) :
  String.substring 0 (String.length u) (u +:+ rest) = u.
Proof.
  induction u as [|c u IH]; [now destruct rest|].
  rewrite append_cons. simpl. now rewrite IH.
Qed.

Lemma consumed_app (u rest : string) : consumed (u +:+ rest) rest = u.
Proof.
  unfold consumed. rewrite length_append.
  replace (String.length u + String.length rest - String.length rest)%nat
    with (String.length u) by lia.
  apply substring_prefix.
Qed.

Lemma after_literal_app (l s : string) : after_literal l (l +:+ s) = Some s.
Proof.
  induction l as [|a l IH]; [now destruct s|].
  simpl. now rewrite Ascii.eqb_refl.
Qed.

Lemma after_literal_inv (l s rest : string) :
  after_literal l s = Some rest -> s = l +:+ rest.
Proof.
  revert s. induction l as [|a l IH]; intros s.
  - destruct s; simpl; intros [= <-]; reflexivity.
  - destruct s as [|b s]; [discriminate|]. simpl.
    destruct (Ascii.eqb_spec a b) as [->|]; [|discriminate].
    intros H. rewrite append_cons. now rewrite <- (IH _ H).
Qed.

Context {R : Type}.
Implicit Types (cls : ascii -> bool) (k : string -> option R).

Lemma plus_greedy_stops cls rest k :
  starts_in cls rest = false -> plus_greedy cls rest k = None.
Proof. destruct rest as [|c rest]; simpl; [reflexivity | now intros ->]. Qed.

(** A greedy run takes all of a run that cannot go on, when what follows
    matches. *)
Lemma plus_greedy_longest cls u rest k r :
  u <> "" -> all_chars cls u = true -> starts_in cls rest = false ->
  k rest = Some r ->
  plus_greedy cls (u +:+ rest) k = Some r.
Proof.
  intros Hne Hall Hstop Hk. induction u as [|c u IH]; [contradiction|].
  cbn [all_chars] in Hall. apply andb_true_iff in Hall as [Hc Hall].
  rewrite append_cons. cbn [plus_greedy]. rewrite Hc.
  destruct u as [|c' u].
  - change ("" +:+ rest) with rest. now rewrite plus_greedy_stops.
  - now rewrite IH.
Qed.

(** What a greedy run that succeeds has taken: it could not have taken
    more and still have what follows match. *)
Lemma plus_greedy_inv cls s k r :
  plus_greedy cls s k = Some r ->
  exists u rest,
    s = u +:+ rest /\ u <> "" /\ all_chars cls u = true /\ k rest = Some r
    /\ plus_greedy cls rest k = None.
Proof.
  revert r. induction s as [|c s IH]; intros r; [discriminate|].
  cbn [plus_greedy]. destruct (cls c) eqn:Hc; [|discriminate].
  destruct (plus_greedy cls s k) as [r'|] eqn:Hrec.
  - intros [= <-]. destruct (IH r' eq_refl) as (u & rest & -> & _ & Hall
                                                  & Hk & Hstop).
    exists (String c u), rest. cbn [all_chars]. rewrite Hc, Hall.
    repeat split; try (reflexivity || assumption || discriminate).
  - intros Hk. exists (String c ""), s. cbn [all_chars]. rewrite Hc.
    repeat split; try (reflexivity || assumption || discriminate).
Qed.

(** A lazy run takes the shortest run after which what follows matches. *)
Lemma plus_lazy_shortest cls u rest k r :
  u <> "" -> all_chars cls u = true -> k rest = Some r ->
  (forall u1 u2, u = u1 +:+ u2 -> u1 <> "" -> u2 <> "" ->
                 k (u2 +:+ rest) = None) ->
  plus_lazy cls (u +:+ rest) k = Some r.
Proof.
  intros Hne Hall Hk Hshort. induction u as [|c u IH]; [contradiction|].
  cbn [all_chars] in Hall. apply andb_true_iff in Hall as [Hc Hall].
  rewrite append_cons. cbn [plus_lazy]. rewrite Hc.
  destruct u as [|c' u].
  - change ("" +:+ rest) with rest. now rewrite Hk.
  - rewrite (Hshort (String c "") (String c' u))
      by (reflexivity || discriminate).
    apply IH; [discriminate | exact Hall |].
    intros u1 u2 Heq Hu1 Hu2.
    apply (Hshort (String c u1) u2);
      [rewrite append_cons; now rewrite Heq | discriminate | exact Hu2].
Qed.

Lemma plus_lazy_inv cls s k r :
  plus_lazy cls s k = Some r ->
  exists u rest,
    s = u +:+ rest /\ u <> "" /\ all_chars cls u = true /\ k rest = Some r
    /\ (forall u1 u2, u = u1 +:+ u2 -> u1 <> "" -> u2 <> "" ->
                      k (u2 +:+ rest) = None).
Proof.
  induction s as [|c s IH]; [discriminate|].
  cbn [plus_lazy]. destruct (cls c) eqn:Hc; [|discriminate].
  destruct (k s) as [r'|] eqn:Hk.
  - intros [= <-]. exists (String c ""), s. cbn [all_chars]. rewrite Hc.
    repeat split; try (reflexivity || assumption || discriminate).
    intros u1 u2 Heq Hu1 Hu2. destruct u1 as [|x u1]; [contradiction|].
    rewrite append_cons in Heq. injection Heq as _ Heq.
    destruct u1; [|discriminate]. change ("" +:+ u2) with u2 in Heq.
    now subst u2.
  - intros Hrec. destruct (IH Hrec) as (u & rest & -> & Hne & Hall & Hk'
                                          & Hshort).
    exists (String c u), rest. cbn [all_chars]. rewrite Hc, Hall.
    repeat split; try (reflexivity || assumption || discriminate).
    intros u1 u2 Heq Hu1 Hu2. destruct u1 as [|x u1]; [contradiction|].
    rewrite append_cons in Heq. injection Heq as _ Heq.
    destruct u1 as [|y u1].
    + change ("" +:+ u2) with u2 in Heq. subst u2. exact Hk.
    + apply (Hshort (String y u1) u2); [exact Heq | discriminate | exact Hu2].
Qed.

Lemma plus_greedy_total cls s k :
  (forall x, is_Some (k x)) -> starts_in cls s = true ->
  is_Some (plus_greedy cls s k).
Proof.
  intros Hk. destruct s as [|c s]; [discriminate|]. cbn. intros ->.
  destruct (plus_greedy cls s k); [eauto | apply Hk].
Qed.

Lemma plus_greedy_none_total cls s k :
  (forall x, is_Some (k x)) -> plus_greedy cls s k = None ->
  starts_in cls s = false.
Proof.
  intros Hk Hnone. destruct (starts_in cls s) eqn:Hs; [|reflexivity].
  destruct (plus_greedy_total cls s k Hk Hs) as [r Hr]. congruence.
Qed.

End RegexFacts.

Lemma all_chars_app cls (a b : string) :
  all_chars cls (a +:+ b) = all_chars cls a && all_chars cls b.
Proof.
  induction a as [|c a IH]; [reflexivity|].
  rewrite append_cons. cbn [all_chars]. now rewrite IH, andb_assoc.
Qed.

(** The pattern on a line of the expected shape. *)
Lemma plugin_line_match name url rev rest :
  plugin_line_shape name url rev rest ->
  re_match plugin_line_pattern (plugin_line name url rev rest)
  = Some [name; url; rev].
Proof.
  intros (Hn & Hname & Hu & Hurl & Htail & Hr & Hrev & Hrest).
  unfold re_match, plugin_line_pattern, plugin_line. cbn [run].
  apply plus_greedy_longest; [exact Hn | exact Hname | reflexivity |].
  rewrite consumed_app, after_literal_app. cbn [app].
  apply plus_lazy_shortest; [exact Hu | exact Hurl | |].
  - rewrite consumed_app, after_literal_app.
    apply plus_greedy_longest; [exact Hr | exact Hrev | exact Hrest |].
    now rewrite consumed_app.
  - intros u1 u2 Heq Hu1 Hu2.
    destruct u1 as [|x u1]; [contradiction|].
    rewrite Heq, append_cons in Htail. cbn [tail] in Htail.
    rewrite all_chars_app in Htail.
    apply andb_true_iff in Htail as [_ Htail].
    destruct u2 as [|c u2]; [contradiction|].
    cbn [all_chars] in Htail. apply andb_true_iff in Htail as [Hc _].
    rewrite append_cons. cbn [after_literal].
    unfold not_at in Hc. apply negb_true_iff in Hc.
    rewrite Ascii.eqb_sym in Hc. now rewrite Hc.
Qed.
(** ** The plugin lines of [pyproject.toml] *)

Lemma lstrip_non_space (s : string) :
  all_chars non_space s = true -> lstrip s = s.
Proof.
  destruct s as [|c s]; [reflexivity|]. cbn [all_chars lstrip].
  intros [Hc _]%andb_true_iff. unfold non_space in Hc.
  apply negb_true_iff in Hc. now rewrite Hc.
Qed.

Lemma rstrip_non_space (s : string) :
  all_chars non_space s = true -> rstrip s = s.
Proof.
  induction s as [|c s IH]; [reflexivity|]. cbn [all_chars rstrip].
  intros [Hc Hs]%andb_true_iff. rewrite (IH Hs).
  unfold non_space in Hc. apply negb_true_iff in Hc.
  destruct s; [now rewrite Hc | reflexivity].
Qed.

Lemma strip_non_space (s : string) :
  all_chars non_space s = true -> strip s = s.
Proof.
  intros H. unfold strip. now rewrite lstrip_non_space, rstrip_non_space.
Qed.

(** Where the lazy group stops there is no earlier ["@"] it could have
    stopped at. *)
Lemma lazy_url_has_no_at (u rest4 : string) :
  all_chars non_space u = true ->
  (forall u1 u2, u = u1 +:+ u2 -> u1 <> "" -> u2 <> "" ->
     exists k : string -> string -> option (list string),
       (forall rest x, is_Some (k rest x))
       /\ match after_literal "@" (u2 +:+ "@" +:+ rest4) with
          | Some rest => plus_greedy non_space rest (k rest)
          | None => None
          end = None) ->
  all_chars not_at (tail u) = true.
Proof.
  intros Hall Hshort.
  assert (Hgen : forall u2 u1, u = u1 +:+ u2 -> u1 <> "" ->
                               all_chars not_at u2 = true).
  { induction u2 as [|c u2 IH]; intros u1 Heq Hu1; [reflexivity|].
    cbn [all_chars]. apply andb_true_iff. split.
    - unfold not_at. apply negb_true_iff.
      destruct (Ascii.eqb_spec c "@") as [->|]; [exfalso | reflexivity].
      destruct (Hshort u1 (String "@" u2) Heq Hu1 ltac:(discriminate))
        as (k & Hk & Hnone).
      rewrite append_cons in Hnone. cbn [after_literal] in Hnone.
      rewrite Ascii.eqb_refl in Hnone.
      apply plus_greedy_none_total in Hnone; [|apply Hk].
      rewrite Heq, all_chars_app in Hall.
      apply andb_true_iff in Hall as [_ Hall]. cbn [all_chars] in Hall.
      apply andb_true_iff in Hall as [_ Hall].
      destruct u2 as [|c' u2]; [discriminate Hnone|].
      rewrite append_cons in Hnone. cbn [starts_in all_chars] in *.
      apply andb_true_iff in Hall as [Hc' _]. congruence.
    - apply (IH (u1 +:+ String c "")).
      + rewrite append_assoc. exact Heq.
      + destruct u1; discriminate. }
  destruct u as [|c u]; [reflexivity|].
  apply (Hgen u (String c "")); [reflexivity | discriminate].
Qed.

(** What the pattern has read when it matches. *)
Lemma plugin_line_match_inv line groups :
  re_match plugin_line_pattern line = Some groups ->
  exists name url rev rest,
    line = plugin_line name url rev rest
    /\ plugin_line_shape name url rev rest
    /\ groups = [name; url; rev].
Proof.
  unfold re_match, plugin_line_pattern. cbn [run]. intros H.
  apply plus_greedy_inv in H
    as (name & rest1 & -> & Hn & Hname & H & _).
  destruct (after_literal " @ git+" rest1) as [rest2|] eqn:Hlit;
    [|discriminate].
  apply after_literal_inv in Hlit as ->.
  apply plus_lazy_inv in H
    as (url & rest3 & -> & Hu & Hurl & H & Hshort).
  destruct (after_literal "@" rest3) as [rest4|] eqn:Hat; [|discriminate].
  apply after_literal_inv in Hat as ->.
  apply plus_greedy_inv in H
    as (rev & rest5 & -> & Hr & Hrev & H & Hstop).
  apply plus_greedy_none_total in Hstop; [|eauto].
  injection H as <-.
  exists name, url, rev, rest5. split; [reflexivity|]. split.
  - repeat split; try assumption.
    apply (lazy_url_has_no_at url (rev +:+ rest5) Hurl).
    intros u1 u2 Heq Hu1 Hu2. specialize (Hshort u1 u2 Heq Hu1 Hu2).
    cbv beta in Hshort. eexists. split; [|exact Hshort]. eauto.
  - now rewrite !consumed_app.
Qed.
Section PluginLines.

Variable lock_data : gmap string LockGitInfo.

Lemma parse_plugin_line_shaped git_packages name url rev rest :
  plugin_line_shape name url rev rest ->
  parse_plugin_line lock_data git_packages (plugin_line name url rev rest)
  = <[name := default (mkLockGitInfo rev url) (lock_data !! name)]>
      git_packages.
Proof.
  intros Hshape. unfold parse_plugin_line.
  rewrite (plugin_line_match _ _ _ _ Hshape).
  destruct Hshape as (_ & Hname & _). rewrite (strip_non_space _ Hname).
  now destruct (lock_data !! name).
Qed.

(** A line is passed over, or it sets the entry of the package it names. *)
Lemma parse_plugin_line_cases git_packages line :
  parse_plugin_line lock_data git_packages line = git_packages
  \/ exists name url rev rest,
       line = plugin_line name url rev rest
       /\ plugin_line_shape name url rev rest
       /\ parse_plugin_line lock_data git_packages line
          = <[name := default (mkLockGitInfo rev url) (lock_data !! name)]>
              git_packages.
Proof.
  destruct (re_match plugin_line_pattern line) as [groups|] eqn:Hm.
  - apply plugin_line_match_inv in Hm
      as (name & url & rev & rest & -> & Hshape & _).
    right. exists name, url, rev, rest.
    split; [reflexivity|]. split; [exact Hshape|].
    now apply parse_plugin_line_shaped.
  - left. unfold parse_plugin_line. now rewrite Hm.
Qed.

Lemma from_line_mono plugins plugins' k info :
  plugins ⊆ plugins' -> from_line plugins k info -> from_line plugins' k info.
Proof. intros Hsub (rest & Hin & Hshape). exists rest. split; auto. Qed.

Lemma entry_origin_mono plugins plugins' git_packages :
  plugins ⊆ plugins' ->
  entry_origin lock_data plugins git_packages ->
  entry_origin lock_data plugins' git_packages.
Proof.
  intros Hsub H k info Hk. destruct (H k info Hk) as [?|[? ?]]; [now left|].
  right. split; [assumption|]. eapply from_line_mono; eassumption.
Qed.

Lemma parse_plugin_line_origin plugins git_packages line :
  entry_origin lock_data plugins git_packages ->
  entry_origin lock_data (plugins ++ [line])
    (parse_plugin_line lock_data git_packages line).
Proof.
  intros H.
  assert (Hold : entry_origin lock_data (plugins ++ [line]) git_packages).
  { apply (entry_origin_mono plugins); [|exact H].
    intros x Hx. apply elem_of_app. now left. }
  destruct (parse_plugin_line_cases git_packages line)
    as [->|(name & u & r & rest & -> & Hshape & ->)]; [exact Hold|].
  intros k info. destruct (decide (k = name)) as [->|Hne].
  - rewrite lookup_insert_eq. intros [= <-].
    destruct (lock_data !! name) as [i|] eqn:Hl; [now left|].
    right. split; [reflexivity|]. exists rest. cbn [url commit default].
    split; [|exact Hshape].
    apply elem_of_app. right. now apply list_elem_of_singleton.
  - rewrite lookup_insert_ne by congruence. apply Hold.
Qed.

Lemma foldl_parse_plugin_line_origin plugins :
  forall seen git_packages,
    entry_origin lock_data seen git_packages ->
    entry_origin lock_data (seen ++ plugins)
      (foldl (parse_plugin_line lock_data) git_packages plugins).
Proof.
  induction plugins as [|line plugins IH]; intros seen git_packages H.
  - now rewrite app_nil_r.
  - cbn [foldl]. rewrite (cons_middle line), app_assoc.
    apply IH. now apply parse_plugin_line_origin.
Qed.

Lemma parse_plugin_line_keeps_keys git_packages line k :
  is_Some (git_packages !! k) ->
  is_Some (parse_plugin_line lock_data git_packages line !! k).
Proof.
  intros Hk.
  destruct (parse_plugin_line_cases git_packages line)
    as [->|(name & url & rev & rest & _ & _ & ->)]; [exact Hk|].
  destruct (decide (k = name)) as [->|Hne].
  - rewrite lookup_insert_eq. eauto.
  - now rewrite lookup_insert_ne by congruence.
Qed.

Lemma foldl_parse_plugin_line_keeps_keys plugins k :
  forall git_packages,
    is_Some (git_packages !! k) ->
    is_Some (foldl (parse_plugin_line lock_data) git_packages plugins !! k).
Proof.
  induction plugins as [|line plugins IH]; intros git_packages Hk;
    [exact Hk|].
  cbn [foldl]. apply IH. now apply parse_plugin_line_keeps_keys.
Qed.

Lemma foldl_parse_plugin_line_has plugins name url rev rest :
  plugin_line name url rev rest ∈ plugins ->
  plugin_line_shape name url rev rest ->
  forall git_packages,
    is_Some (foldl (parse_plugin_line lock_data) git_packages plugins
               !! name).
Proof.
  intros Hin Hshape. induction plugins as [|line plugins IH];
    intros git_packages; [now apply elem_of_nil in Hin|].
  cbn [foldl]. apply elem_of_cons in Hin as [<-|Hin]; [|now apply IH].
  apply foldl_parse_plugin_line_keeps_keys.
  rewrite (parse_plugin_line_shaped _ _ _ _ _ Hshape), lookup_insert_eq.
  eauto.
Qed.

Lemma _parse_git_packages_plugins toml_data plugins :
  plugins_of toml_data = Some plugins ->
  _parse_git_packages toml_data lock_data
  = inr (foldl (parse_plugin_line lock_data) ∅ plugins).
Proof.
  unfold plugins_of, _parse_git_packages, toml_key, TomlData in *.
  destruct (toml_data !! "project") as [project|];
    cbn [mbind option_bind]; [|discriminate].
  destruct (project !! "optional-dependencies") as [deps|];
    cbn [mbind option_bind]; [|discriminate].
  now intros ->.
Qed.

Lemma _parse_git_packages_inr toml_data git_packages :
  _parse_git_packages toml_data lock_data = inr git_packages ->
  exists plugins,
    plugins_of toml_data = Some plugins
    /\ git_packages = foldl (parse_plugin_line lock_data) ∅ plugins.
Proof.
  unfold plugins_of, _parse_git_packages, toml_key, TomlData in *.
  destruct (toml_data !! "project") as [project|];
    cbn [mbind option_bind]; [|discriminate].
  destruct (project !! "optional-dependencies") as [deps|];
    cbn [mbind option_bind]; [|discriminate].
  destruct (deps !! "plugins") as [plugins|]; [|discriminate].
  intros [= <-]. eauto.
Qed.

(** X23: the pattern of line 59 matches a line exactly when the line
    starts with a name, [" @ git+"], a URL, ["@"] and a revision, all
    three non-empty and without blanks, the URL with no ["@"] after its
    first character and the revision running up to the next blank or the
    end of the line; the groups are then the name, the URL and the
    revision. *)
Theorem plugin_line_pattern_reads line groups :
  re_match plugin_line_pattern line = Some groups
  <-> exists name url rev rest,
        line = plugin_line name url rev rest
        /\ plugin_line_shape name url rev rest
        /\ groups = [name; url; rev].
Proof.
  split; [apply plugin_line_match_inv|].
  intros (name & url & rev & rest & -> & Hshape & ->).
  now apply plugin_line_match.
Qed.

(** X24: a line of the expected shape sets the entry of the package it
    names, whatever was there: to the entry of the lock data when the
    lock data knows the package, else to the URL and the revision of the
    line. The URL ends at the first ["@"] after its first character, and
    all that follows up to the next blank is the revision. *)
Theorem shaped_line_sets_the_entry git_packages name url rev rest :
  plugin_line_shape name url rev rest ->
  parse_plugin_line lock_data git_packages (plugin_line name url rev rest)
    !! name
  = Some (default (mkLockGitInfo rev url) (lock_data !! name))
  /\ forall k, k <> name ->
       parse_plugin_line lock_data git_packages
         (plugin_line name url rev rest) !! k
       = git_packages !! k.
Proof.
  intros Hshape. rewrite (parse_plugin_line_shaped _ _ _ _ _ Hshape).
  split; [apply lookup_insert_eq|].
  intros k Hk. now rewrite lookup_insert_ne by congruence.
Qed.

(** X25: [_parse_git_packages] fails exactly when one of the tables
    [project], [optional-dependencies] and [plugins] is missing on the
    way, with a [KeyError] whose message names one of these keys;
    neither the lines nor the lock data can make it fail. *)
Theorem missing_table_is_the_only_error toml_data :
  match _parse_git_packages toml_data lock_data with
  | inl (KeyError msg) =>
      plugins_of toml_data = None
      /\ exists key,
           key ∈ ["project"; "optional-dependencies"; "plugins"]
           /\ msg = "Missing key in toml_data: '" +:+ key +:+ "'"
  | inr _ => is_Some (plugins_of toml_data)
  end.
Proof.
  unfold plugins_of, _parse_git_packages, toml_key, TomlData in *.
  destruct (toml_data !! "project") as [project|]; cbn [mbind option_bind].
  2: { split; [reflexivity|]. exists "project". split; [set_solver|reflexivity]. }
  destruct (project !! "optional-dependencies") as [deps|];
    cbn [mbind option_bind].
  2: { split; [reflexivity|]. exists "optional-dependencies".
       split; [set_solver|reflexivity]. }
  destruct (deps !! "plugins") as [plugins|].
  - eauto.
  - split; [reflexivity|]. exists "plugins". split; [set_solver|reflexivity].
Qed.

(** X26: every entry of the result of [_parse_git_packages] is the entry
    of the lock data for that package, or, for a package the lock data
    does not know, the URL and the revision that one of the plugin lines
    gives for it. *)
Theorem parsed_entries_come_from_lock_or_line toml_data git_packages :
  _parse_git_packages toml_data lock_data = inr git_packages ->
  exists plugins,
    plugins_of toml_data = Some plugins
    /\ entry_origin lock_data plugins git_packages.
Proof.
  intros H. apply _parse_git_packages_inr in H as (plugins & Hp & ->).
  exists plugins. split; [exact Hp|].
  apply (foldl_parse_plugin_line_origin plugins [] ∅).
  intros k info Hk. now rewrite lookup_empty in Hk.
Qed.

(** X27: every package named by a plugin line of the expected shape is
    in the result of [_parse_git_packages]: with the entry of the lock
    data when there is one, else with what a line says about it. *)
Theorem every_shaped_line_is_parsed toml_data plugins name url rev rest :
  plugins_of toml_data = Some plugins ->
  plugin_line name url rev rest ∈ plugins ->
  plugin_line_shape name url rev rest ->
  exists git_packages info,
    _parse_git_packages toml_data lock_data = inr git_packages
    /\ from_line plugins name info
    /\ git_packages !! name = Some (default info (lock_data !! name)).
Proof.
  intros Hp Hin Hshape. eexists.
  rewrite (_parse_git_packages_plugins _ _ Hp).
  destruct (foldl_parse_plugin_line_has plugins _ _ _ _ Hin Hshape ∅)
    as [info Hinfo].
  assert (Hempty : entry_origin lock_data [] ∅).
  { intros k i Hk. now rewrite lookup_empty in Hk. }
  destruct (foldl_parse_plugin_line_origin plugins [] ∅ Hempty name info
              Hinfo) as [Hl|[Hl Hfrom]].
  - exists (mkLockGitInfo rev url). split; [reflexivity|]. split.
    + exists rest. now split.
    + rewrite Hl. exact Hinfo.
  - exists info. split; [reflexivity|]. split; [exact Hfrom|].
    rewrite Hl. exact Hinfo.
Qed.

End PluginLines.
Lemma descriptor_clone_source_witness :
  get_plugin_packages lock_sample [ep_sample] []
  = (Val [("nomad_x", descriptor_sample)], [])
  /\ github_url descriptor_sample = Some "https://github.com/o/x.git"
  /\ commit_hash descriptor_sample = Some "abc123".
Proof.
  assert (get_plugin_packages lock_sample [ep_sample] []
          = (Val [("nomad_x", descriptor_sample)], [])) as Hrun
    by (vm_compute; reflexivity).
  split; [exact Hrun|].
  apply (descriptor_clone_source lock_sample _ _ _ _ "nomad_x"
           descriptor_sample Hrun).
  apply list_elem_of_singleton. reflexivity.
Defined.

Lemma last_project_url_of_a_label_counts_witness :
  exists url_dict evs,
    project_urls
      (["repository, https://example.org/old"]
         ++ "Repository,  https://github.com/o/x "
         :: ["Homepage, https://example.org"]) ∅ []
    = (Val url_dict, [] ++ evs)
    /\ url_dict !! lower "Repository" = Some (strip "  https://github.com/o/x ").
Proof.
  apply (last_project_url_of_a_label_counts
           ["repository, https://example.org/old"]
           "Repository,  https://github.com/o/x "
           ["Homepage, https://example.org"]
           "Repository" "  https://github.com/o/x " []).
  - reflexivity.
  - intros url' n' v' Hin%list_elem_of_singleton. subst url'.
    vm_compute. intros [= <- _]. discriminate.
Defined.

Lemma broken_entry_point_is_passed_over_witness :
  (get_plugin_packages lock_sample ([ep_sample] ++ ep_broken :: []) []).1
  = (get_plugin_packages lock_sample ([ep_sample] ++ []) []).1
  /\ Printed ("Error processing plugin " +:+ ep_name ep_broken
              +:+ ": 'NoneType' object has no attribute 'metadata'")
     ∈ (get_plugin_packages lock_sample ([ep_sample] ++ ep_broken :: [])
          []).2.
Proof.
  apply (broken_entry_point_is_passed_over lock_sample [ep_sample] ep_broken
           [] []).
  reflexivity.
Defined.

Lemma shaped_line_sets_the_entry_witness :
  plugin_line_shape "nomad-x" "ssh://git" "github.com/o/x.git@abc123" ""
  /\ parse_plugin_line ∅ ∅
       (plugin_line "nomad-x" "ssh://git" "github.com/o/x.git@abc123" "")
       !! "nomad-x"
     = Some (mkLockGitInfo "github.com/o/x.git@abc123" "ssh://git").
Proof.
  assert (plugin_line_shape "nomad-x" "ssh://git"
            "github.com/o/x.git@abc123" "") as Hshape
    by (unfold plugin_line_shape; repeat split;
        (discriminate || reflexivity)).
  split; [exact Hshape|].
  exact (proj1 (shaped_line_sets_the_entry ∅ ∅ _ _ _ _ Hshape)).
Defined.

Lemma parsed_entries_come_from_lock_or_line_witness :
  _parse_git_packages toml_sample ∅ = inr lock_sample
  /\ exists plugins,
       plugins_of toml_sample = Some plugins
       /\ entry_origin ∅ plugins lock_sample.
Proof.
  assert (_parse_git_packages toml_sample ∅ = inr lock_sample) as Hrun
    by (vm_compute; reflexivity).
  split; [exact Hrun|].
  apply (parsed_entries_come_from_lock_or_line ∅ toml_sample lock_sample
           Hrun).
Defined.

Lemma every_shaped_line_is_parsed_witness :
  exists git_packages info,
    _parse_git_packages toml_sample lock_sample = inr git_packages
    /\ from_line [one_line] "nomad-x" info
    /\ git_packages !! "nomad-x"
       = Some (default info (lock_sample !! "nomad-x")).
Proof.
  apply (every_shaped_line_is_parsed lock_sample toml_sample [one_line]
           "nomad-x" "https://github.com/o/x.git" "abc123" "").
  - reflexivity.
  - apply list_elem_of_singleton. reflexivity.
  - unfold plugin_line_shape; repeat split; (discriminate || reflexivity).
Defined.
